(** * Verification of the userlist pagination, token refresher, batched
      invite loop and OAuth callback of [index.js].

    JavaScript numbers that the code handles here (page numbers,
    [Date.now()] timestamps, counters) are safe integers, on which JS
    arithmetic and comparison are exact; they are modelled as [Z], with
    [NaN] made explicit where the code can produce it. *)

From Stdlib Require Import String Ascii ZArith List Lia.
From Stdlib Require Import Decimal DecimalZ.
From stdpp Require Import base gmap strings list fin_maps.

Local Open Scope Z_scope.

(* ------------------------------------------------------------------ *)
(** ** JavaScript values used by the code *)

(** A JS number as the code can obtain it: an integer or [NaN]. *)
Inductive jsnum := JNum (z : Z) | JNaN.

(** JS truthiness of a nullable string field ([null]/[undefined] is
    [None]; the empty string is falsy too). *)
Definition truthy (s : option string) : bool :=
  match s with
  | Some (String _ _) => true
  | _ => false
  end.

Definition is_colon (c : ascii) : bool := Ascii.eqb c ":"%char.

(** [s.split(':')]: every piece, including empty ones. *)
Fixpoint split_colon (s : string) : list string :=
  match s with
  | EmptyString => [EmptyString]
  | String c s' =>
      let rest := split_colon s' in
      if is_colon c then EmptyString :: rest
      else match rest with
           | r :: rs => String c r :: rs
           | [] => [String c EmptyString]
           end
  end.

Fixpoint no_colon (s : string) : bool :=
  match s with
  | EmptyString => true
  | String c s' => negb (is_colon c) && no_colon s'
  end.

(** Decimal digits and their conversion to [Decimal.uint]. *)
Definition digit_of (c : ascii) : option (uint -> uint) :=
  match c with
  | "0"%char => Some D0 | "1"%char => Some D1 | "2"%char => Some D2
  | "3"%char => Some D3 | "4"%char => Some D4 | "5"%char => Some D5
  | "6"%char => Some D6 | "7"%char => Some D7 | "8"%char => Some D8
  | "9"%char => Some D9 | _ => None
  end.

Fixpoint uint_str (u : uint) : string :=
  match u with
  | Nil => EmptyString
  | D0 u => String "0" (uint_str u) | D1 u => String "1" (uint_str u)
  | D2 u => String "2" (uint_str u) | D3 u => String "3" (uint_str u)
  | D4 u => String "4" (uint_str u) | D5 u => String "5" (uint_str u)
  | D6 u => String "6" (uint_str u) | D7 u => String "7" (uint_str u)
  | D8 u => String "8" (uint_str u) | D9 u => String "9" (uint_str u)
  end.

(** Longest prefix of decimal digits, and what follows it. *)
Fixpoint read_digits (s : string) : uint * string :=
  match s with
  | EmptyString => (Nil, EmptyString)
  | String c s' =>
      match digit_of c with
      | Some d => let '(u, r) := read_digits s' in (d u, r)
      | None => (Nil, s)
      end
  end.

(** Template-literal rendering [`${n}`] of an integer. *)
Definition show_Z (z : Z) : string :=
  match Z.to_int z with
  | Pos u => uint_str u
  | Neg u => String "-" (uint_str u)
  end.

(** White space as [String.prototype.trim], [parseInt] and [Number] read
    it (ECMAScript's WhiteSpace and LineTerminator), on strings held as
    their UTF-8 bytes: the one-byte characters TAB, LF, VT, FF, CR and
    SPACE, U+00A0 (two bytes), and the three-byte U+1680, U+2000 to
    U+200A, U+2028, U+2029, U+202F, U+205F, U+3000 and U+FEFF. *)
Definition is_ws (c : ascii) : bool :=
  match c with
  | " "%char | "009"%char | "010"%char | "011"%char | "012"%char | "013"%char => true
  | _ => false
  end.

Definition is_ws2 (a b : ascii) : bool := Ascii.eqb a "194" && Ascii.eqb b "160".

Definition ws3_seqs : list (ascii * ascii * ascii) :=
  [("225", "154", "128");                                        (* U+1680 *)
   ("226", "128", "128"); ("226", "128", "129"); ("226", "128", "130");
   ("226", "128", "131"); ("226", "128", "132"); ("226", "128", "133");
   ("226", "128", "134"); ("226", "128", "135"); ("226", "128", "136");
   ("226", "128", "137"); ("226", "128", "138");                 (* U+2000 .. U+200A *)
   ("226", "128", "168"); ("226", "128", "169");                 (* U+2028, U+2029 *)
   ("226", "128", "175"); ("226", "129", "159");                 (* U+202F, U+205F *)
   ("227", "128", "128"); ("239", "187", "191")]%char.           (* U+3000, U+FEFF *)

Definition is_ws3 (a b c : ascii) : bool :=
  existsb (fun '(x, y, z) => Ascii.eqb a x && Ascii.eqb b y && Ascii.eqb c z) ws3_seqs.

(** The string after one leading white-space character, if it starts
    with one. *)
Definition ws_head (s : string) : option string :=
  match s with
  | String a s1 =>
      if is_ws a then Some s1 else
      match s1 with
      | String b s2 =>
          if is_ws2 a b then Some s2 else
          match s2 with
          | String c s3 => if is_ws3 a b c then Some s3 else None
          | EmptyString => None
          end
      | EmptyString => None
      end
  | EmptyString => None
  end.

(** [s.trimStart()]: [ws_head] as long as it applies. *)
Fixpoint trim_start (s : string) : string :=
  match s with
  | String a s1 =>
      if is_ws a then trim_start s1 else
      match s1 with
      | String b s2 =>
          if is_ws2 a b then trim_start s2 else
          match s2 with
          | String c s3 => if is_ws3 a b c then trim_start s3 else s
          | EmptyString => s
          end
      | EmptyString => s
      end
  | EmptyString => EmptyString
  end.

Fixpoint all_ws (s : string) : bool :=
  match s with
  | String a s1 =>
      if is_ws a then all_ws s1 else
      match s1 with
      | String b s2 =>
          if is_ws2 a b then all_ws s2 else
          match s2 with
          | String c s3 => is_ws3 a b c && all_ws s3
          | EmptyString => false
          end
      | EmptyString => false
      end
  | EmptyString => true
  end.

(** [s.trimEnd()]: the longest prefix after which only white space
    follows is kept. *)
Fixpoint trim_end (s : string) : string :=
  match s with
  | EmptyString => EmptyString
  | String c s' => if all_ws s then EmptyString else String c (trim_end s')
  end.

(** [s.trim()]. *)
Definition js_trim (s : string) : string := trim_end (trim_start s).

(** Bytes of a multi-byte UTF-8 sequence, and the one-byte characters
    that are not white space. *)
Definition cont (c : ascii) : bool := (128 <=? nat_of_ascii c)%nat.

Definition plain (c : ascii) : bool := negb (cont c) && negb (is_ws c).

(** Optional sign, then the digit prefix. *)
Definition read_signed (s : string) : int * string :=
  match s with
  | String "-" s' => let '(u, r) := read_digits s' in (Neg u, r)
  | String "+" s' => let '(u, r) := read_digits s' in (Pos u, r)
  | _ => let '(u, r) := read_digits s in (Pos u, r)
  end.

Definition int_digits (i : int) : uint :=
  match i with Pos u | Neg u => u end.

Definition uint_nonempty (u : uint) : bool :=
  match u with Nil => false | _ => true end.

(** [parseInt(s, 10)]: leading white space skipped, optional sign, then the
    longest digit prefix; [NaN] when there is no digit. [parseInt(undefined)]
    parses the string ["undefined"], hence [NaN]. *)
Definition js_parseInt (s : option string) : jsnum :=
  match s with
  | None => JNaN
  | Some s =>
      let '(i, _) := read_signed (trim_start s) in
      if uint_nonempty (int_digits i) then JNum (Z.of_int i) else JNaN
  end.

(** [Number(s)] on a string: white space only gives 0, a signed decimal
    integer surrounded by white space gives its value, anything else is
    [NaN]. The other numeric literal forms JS also accepts here (fractions,
    exponents, [0x]/[0o]/[0b] prefixes, [Infinity]) are not produced by the
    encoder and are not modelled: they are mapped to [NaN]. *)
Definition js_Number (s : string) : jsnum :=
  let t := trim_start s in
  match t with
  | EmptyString => JNum 0
  | _ =>
      let '(i, r) := read_signed t in
      if uint_nonempty (int_digits i) && all_ws r then JNum (Z.of_int i) else JNaN
  end.

(* ------------------------------------------------------------------ *)
(** ** Pagination token ([customId]) *)

Inductive action := Prev | Next.

Definition action_prefix (a : action) : string :=
  match a with Prev => "userlist_prev" | Next => "userlist_next" end.

(** [`userlist_prev:${page - 1}:${invokerId}:${timestamp}`] (and [_next]). *)
Definition encode (a : action) (page : Z) (invoker : string) (ts : Z) : string :=
  action_prefix a +:+ String ":" (show_Z page +:+ String ":" (invoker +:+ String ":" (show_Z ts))).

(** The handler's decoding:
    [const [prefix, pageStr, invokerId, createdAtStr] = customId.split(':')],
    [createdAt = Number(createdAtStr || 0)] and [parseInt(pageStr, 10)]. *)
Record decoded := {
  d_prefix : option string;
  d_page : jsnum;
  d_invoker : option string;
  d_created : jsnum
}.

Definition created_at (s : option string) : jsnum :=
  match s with
  | None | Some EmptyString => JNum 0   (* [createdAtStr || 0] *)
  | Some s => js_Number s
  end.

Definition decode (custom_id : string) : decoded :=
  let parts := split_colon custom_id in
  {| d_prefix := nth_error parts 0;
     d_page := js_parseInt (nth_error parts 1);
     d_invoker := nth_error parts 2;
     d_created := created_at (nth_error parts 3) |}.

(* ------------------------------------------------------------------ *)
(** ** Credential records (the values of [users.json]) *)

Record cred := {
  id : string;
  username : string;
  verifiedAt : string;
  ip : string;
  avatar : option string;
  access_token : option string;
  refresh_token : option string
}.

(* ------------------------------------------------------------------ *)
(** ** [buildUserlistPage] *)

Definition PAGE_SIZE : Z := 20.
Definition BUTTON_TTL : Z := 2 * 60 * 1000.

(** [Math.ceil(a / b)] for a positive divisor [b]. *)
Definition ceil_div (a b : Z) : Z := - ((- a) / b).

(** [Math.max(1, Math.ceil(total / pageSize))]. *)
Definition page_count (page_size total : Z) : Z := Z.max 1 (ceil_div total page_size).

(** [Math.min(Math.max(1, page), pages)]. *)
Definition clamp_page (page pages : Z) : Z := Z.min (Z.max 1 page) pages.

(** [Array.prototype.slice(start, end)] for [0 <= start]. *)
Definition js_slice {A} (l : list A) (start stop : Z) : list A :=
  firstn (Z.to_nat (stop - start)) (skipn (Z.to_nat start) l).

Record page_view := {
  pv_page : Z;
  pv_pages : Z;
  pv_total : Z;
  pv_slice : list cred;
  pv_prev_id : string;
  pv_prev_disabled : bool;
  pv_next_id : string;
  pv_next_disabled : bool;
  pv_timestamp : Z
}.

(** [buildUserlistPage(usersObj, page, invokerId)], with [all] the
    [Object.values(usersObj)] and [now] the value of [Date.now()]. *)
Definition buildUserlistPage (all : list cred) (page : Z) (invokerId : string) (now : Z)
    : page_view :=
  let total := Z.of_nat (length all) in
  let pages := page_count PAGE_SIZE total in
  let page := clamp_page page pages in
  let start := (page - 1) * PAGE_SIZE in
  {| pv_page := page;
     pv_pages := pages;
     pv_total := total;
     pv_slice := js_slice all start (start + PAGE_SIZE);
     pv_prev_id := encode Prev (page - 1) invokerId now;
     pv_prev_disabled := page <=? 1;
     pv_next_id := encode Next (page + 1) invokerId now;
     pv_next_disabled := pages <=? page;
     pv_timestamp := now |}.

(* ------------------------------------------------------------------ *)
(** ** The button branch of the [interactionCreate] handler *)

Inductive outcome :=
  | Ignored                 (* not a userlist button: plain [return] *)
  | Expired                 (* "This pagination has expired.", buttons stripped *)
  | Forbidden               (* "These buttons are restricted to the command invoker." *)
  | View (v : page_view).   (* message updated with the new page *)

(** [Date.now() - createdAt > BUTTON_TTL]; every comparison with [NaN] is
    false. *)
Definition ttl_exceeded (now : jsnum) (created : jsnum) : bool :=
  match now, created with
  | JNum n, JNum c => BUTTON_TTL <? n - c
  | _, _ => false
  end.

(** [interaction.user.id !== invokerId] ([undefined] differs from every
    string). *)
Definition not_invoker (user : string) (invoker : option string) : bool :=
  match invoker with
  | Some s => negb (String.eqb user s)
  | None => true
  end.

(** [let targetPage = parseInt(pageStr, 10);
     if (isNaN(targetPage) || targetPage < 1) targetPage = 1;] *)
Definition target_page (p : jsnum) : Z :=
  match p with
  | JNum z => if z <? 1 then 1 else z
  | JNaN => 1
  end.

(** [Object.values(users)] lists the records of the store in the order
    the engine enumerates its keys: integer-like keys ascending, then the
    other keys in insertion order, which the store as a map does not
    record. The definitions below take that enumeration as an argument
    [object_values]; a statement that needs it to list the store's records
    says so with a hypothesis, and [gmap_values] is one such enumeration. *)
Definition gmap_values (m : gmap string cred) : list cred := (map_to_list m).*2.

(** The redemption of the button [custom_id] pressed by [user] at time
    [now]; [file] is [users.json], reloaded before the page is built. The
    handler only reads the store. *)
Definition handle_button (object_values : gmap string cred -> list cred)
    (custom_id user : string) (now : Z) (file : gmap string cred) : outcome :=
  let d := decode custom_id in
  match d_prefix d with
  | None => Ignored
  | Some prefix =>
      if negb (String.prefix "userlist" prefix) then Ignored
      else if ttl_exceeded (JNum now) (d_created d) then Expired
      else if not_invoker user (d_invoker d) then Forbidden
      else
        let users := file in
        match d_invoker d with
        | Some invokerId =>
            View (buildUserlistPage (object_values users) (target_page (d_page d))
                    invokerId now)
        | None => Forbidden
        end
  end.

(* ------------------------------------------------------------------ *)
(** ** [refreshAllTokens] *)

(** The fields of an OAuth token response the code reads. *)
Record token_data := {
  td_access_token : option string;
  td_refresh_token : option string;
  td_token_type : option string
}.

(** What [await fetch(...)] followed by [await tokenRes.json()] yields:
    an exception, or the parsed body ([None] for [null]). *)
Inductive token_resp :=
  | TThrew
  | TJson (td : option token_data).

Definition set_access_token (c : cred) (t : option string) : cred :=
  {| id := id c; username := username c; verifiedAt := verifiedAt c; ip := ip c;
     avatar := avatar c; access_token := t; refresh_token := refresh_token c |}.

Definition set_refresh_token (c : cred) (t : option string) : cred :=
  {| id := id c; username := username c; verifiedAt := verifiedAt c; ip := ip c;
     avatar := avatar c; access_token := access_token c; refresh_token := t |}.

Section Refresh.

(** The answer of the token endpoint to the refresh call made for the
    entry [userId] with refresh token [rt]. *)
Variable oauth_refresh : string -> string -> token_resp.

(** Loop state: the in-memory [users] object and the two counters. *)
Definition refresh_state : Type := gmap string cred * nat * nat.

(** One iteration of [for (const [userId, userData] of entries)]. The
    pass runs alone here, so [users[userId]] is still the object
    [userData]; if it were gone, the property write would throw a
    [TypeError], caught like any other error (the [None] case). *)
Definition refresh_entry (st : refresh_state) (e : string * cred) : refresh_state :=
  let '(users, refreshed, deleted) := st in
  let '(userId, userData) := e in
  let evict := (delete userId users, refreshed, S deleted) in
  match refresh_token userData with
  | Some (String c s) =>
      match oauth_refresh userId (String c s) with
      | TThrew => evict
      | TJson None => evict
      | TJson (Some tokenData) =>
          if negb (truthy (td_access_token tokenData)) then evict
          else
            match users !! userId with
            | None => evict
            | Some cur =>
                let cur1 := set_access_token cur (td_access_token tokenData) in
                let cur2 := if truthy (td_refresh_token tokenData)
                            then set_refresh_token cur1 (td_refresh_token tokenData)
                            else cur1 in
                let cur3 := if negb (truthy (refresh_token cur2))
                            then set_refresh_token cur2 (refresh_token userData)
                            else cur2 in
                (<[userId := cur3]> users, S refreshed, deleted)
            end
      end
  | _ => evict
  end.

(** Observable effects of one pass: the contents written by each
    [saveJson(USERS_FILE, users)] in order, and the counts in the final
    log line ([None] when the pass logs "No users to refresh."). *)
Record refresh_run := {
  saves : list (gmap string cred);
  report : option (nat * nat)
}.

Definition refreshAllTokens (file : gmap string cred) : refresh_run :=
  let users := file in
  let entries := map_to_list users in
  match entries with
  | [] => {| saves := []; report := None |}
  | _ :: _ =>
      let '(users', refreshed, deleted) := fold_left refresh_entry entries (users, 0%nat, 0%nat) in
      {| saves := [users']; report := Some (refreshed, deleted) |}
  end.

(** What one entry leaves in the store: evicted ([None]) when it has no
    refresh token or the refresh yields no access token, otherwise the
    record with the new access token and the new refresh token if the
    response has one, the existing one if not. *)
Definition rotate (userData : cred) (tokenData : token_data) : cred :=
  set_refresh_token (set_access_token userData (td_access_token tokenData))
    (if truthy (td_refresh_token tokenData) then td_refresh_token tokenData
     else refresh_token userData).

Definition refreshed_record (userId : string) (userData : cred) : option cred :=
  match refresh_token userData with
  | Some (String c s) =>
      match oauth_refresh userId (String c s) with
      | TJson (Some tokenData) =>
          if truthy (td_access_token tokenData) then Some (rotate userData tokenData) else None
      | _ => None
      end
  | _ => None
  end.

End Refresh.

(* ------------------------------------------------------------------ *)
(** ** The batch loop of [/addall] *)

Definition BATCH_SIZE : nat := 5.
Definition DELAY : Z := 5000.

(** [await Promise.all(batch.map(...))] issues the calls of a batch at
    once ([IssueAll]) and resumes when all of them have settled
    ([AllSettled]); [Wait] is the [setTimeout] between batches. *)
Inductive dispatch_event {A : Type} :=
  | IssueAll (batch : list A)
  | AllSettled (batch : list A)
  | Wait (ms : Z).
Arguments dispatch_event : clear implicits.

(** [for (let i = 0; i < n; i += batchSize) { ... }]. The fuel bounds the
    number of iterations; [length entries] iterations suffice when
    [batchSize >= 1] (the code's batch size is 5). *)
Fixpoint batch_loop {A} (batchSize : nat) (delay : Z) (entries : list A)
    (fuel i : nat) : list (dispatch_event A) :=
  match fuel with
  | O => []
  | S fuel' =>
      if (i <? length entries)%nat then
        let batch := firstn batchSize (skipn i entries) in
        [IssueAll batch; AllSettled batch]
          ++ (if (i + batchSize <? length entries)%nat then [Wait delay] else [])
          ++ batch_loop batchSize delay entries fuel' (i + batchSize)
      else []
  end.

Definition dispatch {A} (batchSize : nat) (delay : Z) (entries : list A)
    : list (dispatch_event A) :=
  batch_loop batchSize delay entries (length entries) 0.

(** The loop as [/addall] runs it on the refreshed [Object.entries(users)]. *)
Definition addall_dispatch (entries : list (string * cred)) :=
  dispatch BATCH_SIZE DELAY entries.

(** The trace the batching policy prescribes for the batches [bss], in
    order: each batch issued and settled, with a wait between two
    consecutive batches and none after the last. *)
Fixpoint render {A} (delay : Z) (bss : list (list A)) : list (dispatch_event A) :=
  match bss with
  | [] => []
  | b :: rest =>
      [IssueAll b; AllSettled b]
        ++ (match rest with [] => [] | _ :: _ => [Wait delay] end)
        ++ render delay rest
  end.

(** Sizes of the issued batches, and number of waits, in a trace. *)
Definition issued_sizes {A} (tr : list (dispatch_event A)) : list nat :=
  flat_map (fun ev => match ev with IssueAll b => [length b] | _ => [] end) tr.

Definition wait_count {A} (tr : list (dispatch_event A)) : nat :=
  length (List.filter (fun ev => match ev with Wait _ => true | _ => false end) tr).

(* ------------------------------------------------------------------ *)
(** ** [app.get('/callback')] *)

(** The fields of [/users/@me] the code reads. *)
Record discord_user := {
  du_id : string;
  du_username : option string;
  du_global_name : option string;
  du_discriminator : option string;
  du_avatar : option string;
  du_user_username : option string   (* [userData.user && userData.user.username] *)
}.

Inductive me_resp := MeThrew | MeJson (u : discord_user).

(** [a || b] on nullable strings. *)
Definition or_else (a b : option string) : option string :=
  if truthy a then a else b.

(** [(userData.global_name || userData.username ||
      (userData.user && userData.user.username) || '').trim()], then the
    discriminator unless it is missing or ['0']. *)
Definition full_username (u : discord_user) : string :=
  let maybeName :=
    js_trim (match or_else (du_global_name u) (or_else (du_username u) (du_user_username u)) with
             | Some s => s | None => EmptyString end) in
  let discriminator :=
    match du_discriminator u with
    | Some d => if truthy (Some d) && negb (String.eqb d "0") then String "#" d else EmptyString
    | None => EmptyString
    end in
  (match maybeName with EmptyString => "UnknownUser" | _ => maybeName end) +:+ discriminator.

(** The callback for query [code] from [ip] at ISO time [now_iso];
    [exchange] and [me] are the answers of the two Discord endpoints and
    [file] is [users.json]. The result is the HTTP status and the file
    afterwards. The role grant and the log message run after the store
    is saved and catch their own errors. *)
Definition callback (code : option string) (client_ip now_iso : string)
    (exchange : string -> token_resp) (me : token_data -> me_resp)
    (file : gmap string cred) : Z * gmap string cred :=
  match code with
  | Some (String c s) =>
      match exchange (String c s) with
      | TThrew => (500, file)
      | TJson None => (500, file)
      | TJson (Some tokenData) =>
          if negb (truthy (td_access_token tokenData)) then (500, file)
          else
            match me tokenData with
            | MeThrew => (500, file)
            | MeJson userData =>
                let users := file in
                let rec := {| id := du_id userData;
                              username := full_username userData;
                              verifiedAt := now_iso;
                              ip := client_ip;
                              avatar := or_else (du_avatar userData) None;
                              access_token := td_access_token tokenData;
                              refresh_token := or_else (td_refresh_token tokenData) None |} in
                (200, <[du_id userData := rec]> users)
            end
      end
  | _ => (400, file)
  end.

(* ------------------------------------------------------------------ *)
(** ** [/cleanup] *)

(** Outcome of a [fetch]: it threw, or it answered, with [res.ok]. *)
Inductive probe := PThrew | PStatus (ok : bool).

Section Cleanup.

(** The answer of [GET /users/@me] made with the bearer token given. *)
Variable me_probe : string -> probe.

(** One iteration of [for (const [id, u] of entries)]; the state is the
    in-memory [users] and the counter [removed]. *)
Definition cleanup_entry (st : gmap string cred * nat) (e : string * cred)
    : gmap string cred * nat :=
  let '(users, removed) := st in
  let '(id, u) := e in
  match access_token u with
  | Some (String c s) =>
      match me_probe (String c s) with
      | PStatus true => (users, removed)
      | PStatus false => (delete id users, S removed)
      | PThrew => (delete id users, S removed)
      end
  | _ => (delete id users, S removed)
  end.

Inductive cleanup_out :=
  | CleanupEmpty                                    (* "No users in users.json.", no save *)
  | CleanupDone (saved : gmap string cred) (removed : nat).  (* saveJson, then the count *)

Definition cleanup (file : gmap string cred) : cleanup_out :=
  let users := file in
  let entries := map_to_list users in
  match entries with
  | [] => CleanupEmpty
  | _ :: _ =>
      let '(users', removed) := fold_left cleanup_entry entries (users, 0%nat) in
      CleanupDone users' removed
  end.

(** Whether a record survives the loop: it has an access token and the
    probe made with it answers [ok]. *)
Definition cleanup_keeps (u : cred) : bool :=
  match access_token u with
  | Some (String c s) =>
      match me_probe (String c s) with
      | PStatus true => true
      | _ => false
      end
  | _ => false
  end.

End Cleanup.

(* ------------------------------------------------------------------ *)
(** ** [/addall] *)

Section Addall.

Variable oauth_refresh : string -> string -> token_resp.

(** The answer of [PUT /guilds/{guildId}/members/{id}] sent with the
    access token given. *)
Variable put_member : string -> string -> string -> probe.

(** The callback of [batch.map] for one entry; state [(success, failed)].
    The callbacks of a batch run concurrently, but they only increment
    the counters, so running them in order gives the same counts. *)
Definition invite_entry (guildId : string) (st : nat * nat) (e : string * cred) : nat * nat :=
  let '(success, failed) := st in
  let '(id, u) := e in
  match access_token u with
  | Some (String c s) =>
      match put_member guildId id (String c s) with
      | PStatus true => (S success, failed)
      | _ => (success, S failed)
      end
  | _ => (success, S failed)
  end.

(** The [PUT] requests issued over the entries, as (guild, member,
    access token). *)
Definition invite_calls (guildId : string) (entries : list (string * cred))
    : list (string * string * string) :=
  flat_map (fun e => match access_token e.2 with
                     | Some (String c s) => [(guildId, e.1, String c s)]
                     | _ => []
                     end) entries.

Inductive addall_out :=
  | AddallEmpty                                  (* "No verified users found." *)
  | AddallEmptyAfterRefresh (run : refresh_run)  (* "... after token refresh." *)
  | AddallDone (run : refresh_run) (calls : list (string * string * string))
      (success failed : nat).

(** [/addall serverid]. The [loadJson] after [refreshAllTokens] reads the
    last store the pass saved, or the file as it was if it saved none. *)
Definition addall (serverid : string) (file : gmap string cred) : addall_out :=
  let guildId := js_trim serverid in
  let users := file in
  match map_to_list users with
  | [] => AddallEmpty
  | _ :: _ =>
      let run := refreshAllTokens oauth_refresh users in
      let users := List.last (saves run) users in
      let refreshedUserEntries := map_to_list users in
      match refreshedUserEntries with
      | [] => AddallEmptyAfterRefresh run
      | _ :: _ =>
          let '(success, failed) :=
            fold_left (invite_entry guildId) refreshedUserEntries (0%nat, 0%nat) in
          AddallDone run (invite_calls guildId refreshedUserEntries) success failed
      end
  end.

End Addall.

(* ------------------------------------------------------------------ *)
(** ** Plain objects indexed by user-supplied strings *)

(** The properties every plain object [{}] inherits from
    [Object.prototype]: reading [obj[k]] for one of these keys yields a
    truthy value although [k] is not an own key. *)
Definition object_prototype_keys : list string :=
  ["constructor"; "__defineGetter__"; "__defineSetter__"; "hasOwnProperty";
   "__lookupGetter__"; "__lookupSetter__"; "isPrototypeOf";
   "propertyIsEnumerable"; "toString"; "valueOf"; "__proto__"; "toLocaleString"].

Definition inherited_key (k : string) : bool :=
  existsb (String.eqb k) object_prototype_keys.

(* ------------------------------------------------------------------ *)
(** ** [/useralts] *)

(** [u.ip || 'Unknown']. *)
Definition ip_key (u : cred) : string :=
  match ip u with
  | EmptyString => "Unknown"
  | s => s
  end.

Fixpoint assoc_get {A} (k : string) (l : list (string * A)) : option A :=
  match l with
  | [] => None
  | (k', v) :: l' => if String.eqb k k' then Some v else assoc_get k l'
  end.

(** [byIp[k].push(u)] on an own key [k]. *)
Fixpoint assoc_push (k : string) (u : cred) (l : list (string * list cred))
    : list (string * list cred) :=
  match l with
  | [] => []
  | (k', arr) :: l' =>
      if String.eqb k k' then (k', arr ++ [u]) :: l' else (k', arr) :: assoc_push k u l'
  end.

(** One iteration of [for (const u of Object.values(users))] over
    [byIp], kept as its own keys in insertion order. [None] is the
    [TypeError] of [byIp[ip].push] when [ip] is an inherited key: the
    truthy inherited value is not replaced by [[]] and has no [push]. *)
Definition group_step (acc : option (list (string * list cred))) (u : cred)
    : option (list (string * list cred)) :=
  match acc with
  | None => None
  | Some byIp =>
      let k := ip_key u in
      match assoc_get k byIp with
      | Some _ => Some (assoc_push k u byIp)
      | None => if inherited_key k then None else Some (byIp ++ [(k, [u])])
      end
  end.

(** The groups [/useralts] reports ([Some []]: "No IPs with multiple
    verified users found."), or [None] when the command throws and the
    handler's catch answers "An error occurred.". [Object.entries]
    lists integer-like keys first; the statements below do not depend on
    the order of the groups. *)
Definition useralts (object_values : gmap string cred -> list cred) (file : gmap string cred)
    : option (list (string * list cred)) :=
  let users := file in
  match fold_left group_step (object_values users) (Some []) with
  | None => None
  | Some byIp => Some (List.filter (fun e => 1 <? length e.2)%nat byIp)
  end.

(* ------------------------------------------------------------------ *)
(** ** [/removeuser] *)

(** [None]: "That user ID does not exist", no save; [Some users]: the
    store saved. An inherited key passes the [!users[userId]] test, and
    [delete] of a key that is not own does nothing. *)
Definition removeuser (userid : string) (file : gmap string cred)
    : option (gmap string cred) :=
  let userId := js_trim userid in
  let users := file in
  match users !! userId with
  | Some _ => Some (delete userId users)
  | None => if inherited_key userId then Some users else None
  end.

(* ------------------------------------------------------------------ *)
(** ** [presenceUpdate] *)

Definition GUILD_ID : string := "1447283337130676407".

Record activity := { a_type : Z; a_state : option string }.

Record presence := {
  p_guild : option string;       (* [newPresence.guild?.id] *)
  p_member : bool;               (* [newPresence.member] is set *)
  p_activities : list activity
}.

Inductive role_call := AddMediaRole | RemoveMediaRole.

(** [toLowerCase] on bytes: ASCII letters are lowered and the other bytes
    kept. No non-ASCII character lowers to text containing ["/grin"]
    (U+0130 lowers to [i] followed by a combining dot), so the test below
    decides as on the JS string. *)
Definition lower_ascii (c : ascii) : ascii :=
  if ((nat_of_ascii "A" <=? nat_of_ascii c) && (nat_of_ascii c <=? nat_of_ascii "Z"))%nat
  then ascii_of_nat (nat_of_ascii c + 32) else c.

Fixpoint to_lower (s : string) : string :=
  match s with
  | EmptyString => EmptyString
  | String c s' => String (lower_ascii c) (to_lower s')
  end.

(** [hay.includes(needle)]. *)
Fixpoint includes (needle hay : string) : bool :=
  String.prefix needle hay ||
  match hay with
  | EmptyString => false
  | String _ hay' => includes needle hay'
  end.

(** [state]: the trimmed state of the first activity of type 4 when it is
    a string, else [''] . *)
Definition custom_state (activities : list activity) : string :=
  match List.find (fun a => a_type a =? 4) activities with
  | Some a => match a_state a with Some s => js_trim s | None => EmptyString end
  | None => EmptyString
  end.

(** The role calls made for [newPresence] when the member holds the
    media role ([has_role]) or not. *)
Definition presenceUpdate (newPresence : option presence) (has_role : bool)
    : list role_call :=
  match newPresence with
  | None => []
  | Some p =>
      match p_guild p with
      | None => []
      | Some g =>
          if negb (String.eqb g GUILD_ID) then []
          else if negb (p_member p) then []
          else
            let state := custom_state (p_activities p) in
            if includes "/grin" (to_lower state)
            then (if has_role then [] else [AddMediaRole])
            else (if has_role then [RemoveMediaRole] else [])
      end
  end.

(** The role held after the calls succeed. *)
Definition apply_role_calls (has_role : bool) (calls : list role_call) : bool :=
  fold_left (fun _ c => match c with AddMediaRole => true | RemoveMediaRole => false end)
    calls has_role.

(* ------------------------------------------------------------------ *)
(** ** [POST /upload] *)

Fixpoint str_drop (n : nat) (s : string) : string :=
  match n, s with
  | O, _ => s
  | S n', String _ s' => str_drop n' s'
  | S _, EmptyString => EmptyString
  end.

(** [s.replace(pat, rep)] with a string pattern: the first occurrence. *)
Fixpoint replace_first (pat rep s : string) : string :=
  if String.prefix pat s then rep +:+ str_drop (String.length pat) s
  else match s with
       | EmptyString => EmptyString
       | String c s' => String c (replace_first pat rep s')
       end.

Definition backup_path (USERS_FILE : string) : string :=
  replace_first ".json" "_backup.json" USERS_FILE.

(** [a !== b] on values that are strings or [undefined]. *)
Definition js_strict_neq (a b : option string) : bool :=
  match a, b with
  | Some x, Some y => negb (String.eqb x y)
  | None, None => false
  | _, _ => true
  end.

(** The file system, as the contents of each existing file. *)
Definition fs_state : Type := gmap string string.

(** The [fs] calls of the handler: [readFileSync], [copyFileSync],
    [writeFileSync] and [unlinkSync]. *)
Inductive fs_call : Type :=
| FsRead (path : string)
| FsCopy (src dst : string)
| FsWrite (path : string)
| FsUnlink (path : string).

Section Upload.

(** Parsed JSON documents, [JSON.parse] ([None]: it throws) and
    [JSON.stringify(_, null, 2)]. *)
Variable json : Type.
Variable JSON_parse : string -> option json.
Variable JSON_stringify : json -> string.

(** Whether an [fs] call throws in a given state for a reason the map
    of files does not record: a missing or unwritable directory, a
    permission, a full disk. A call that throws changes nothing. *)
Variable fs_fails : fs_state -> fs_call -> bool.

Definition fs_read (fs : fs_state) (p : string) : option string :=
  if fs_fails fs (FsRead p) then None else fs !! p.

Definition fs_copy (fs : fs_state) (src dst : string) : option fs_state :=
  if fs_fails fs (FsCopy src dst) then None
  else match fs !! src with Some c => Some (<[dst := c]> fs) | None => None end.

Definition fs_write (fs : fs_state) (p c : string) : option fs_state :=
  if fs_fails fs (FsWrite p) then None else Some (<[p := c]> fs).

Definition fs_unlink (fs : fs_state) (p : string) : option fs_state :=
  if fs_fails fs (FsUnlink p) then None
  else match fs !! p with Some _ => Some (delete p fs) | None => None end.

(** The handler for the form fields [pass] and the path multer stored
    the file at ([req.file]); the result is the HTTP status and the file
    system afterwards. A call that throws inside the [try] is answered
    500 by its [catch], with the effects of the calls before it kept; one
    that throws outside it ([unlinkSync] on a wrong password,
    [req.file.path] without a file) reaches Express' error handler,
    which answers 500 as well. [fs.existsSync(USERS_FILE)] is the
    presence of the file in the map. *)
Definition upload_post (USERS_FILE : string) (ADMIN_PASS pass : option string)
    (reqfile : option string) (fs : fs_state) : Z * fs_state :=
  if js_strict_neq pass ADMIN_PASS then
    match reqfile with
    | Some p => match fs_unlink fs p with Some fs' => (403, fs') | None => (500, fs) end
    | None => (403, fs)
    end
  else
    match reqfile with
    | None => (500, fs)
    | Some filePath =>
        match fs_read fs filePath with
        | None => (500, fs)
        | Some content =>
            match JSON_parse content with
            | None => (500, fs)
            | Some newData =>
                let copied := match fs !! USERS_FILE with
                              | Some _ => fs_copy fs USERS_FILE (backup_path USERS_FILE)
                              | None => Some fs
                              end in
                match copied with
                | None => (500, fs)
                | Some fs1 =>
                    match fs_write fs1 USERS_FILE (JSON_stringify newData) with
                    | None => (500, fs1)
                    | Some fs2 =>
                        match fs_unlink fs2 filePath with
                        | None => (500, fs2)
                        | Some fs3 => (200, fs3)
                        end
                    end
                end
            end
        end
    end.

End Upload.

(* ------------------------------------------------------------------ *)
(** ** [loadJson] and the [/userlist] command *)

(** [loadJson(file)] for the contents of [file] ([None]: it does not
    exist) and [JSON.parse] ([None]: it throws): every failure gives the
    empty object. *)
Definition loadJson (JSON_parse : string -> option (gmap string cred))
    (contents : option string) : gmap string cred :=
  match contents with
  | None => ∅
  | Some s =>
      match JSON_parse (match s with EmptyString => "{}" | _ => s end) with
      | Some users => users
      | None => ∅
      end
  end.


(* ------------------------------------------------------------------ *)
(** ** Codec lemmas *)

(** [String.append] is [simpl never] under stdpp: its two equations. *)
Lemma append_nil_l (t : string) : EmptyString +:+ t = t.
Proof. reflexivity. Qed.

Lemma append_cons (c : ascii) (s t : string) : String c s +:+ t = String c (s +:+ t).
Proof. reflexivity. Qed.

Ltac app_simpl := repeat rewrite ?append_nil_l, ?append_cons; simpl.

(** *** White space *)

Lemma ws2_cont (a b : ascii) : is_ws2 a b = true -> cont a = true /\ cont b = true.
Proof.
  unfold is_ws2. intros H. apply andb_prop in H as [H1 H2].
  apply Ascii.eqb_eq in H1, H2. subst. split; reflexivity.
Qed.

Lemma ws3_cont (a b c : ascii) :
  is_ws3 a b c = true -> cont a = true /\ cont b = true /\ cont c = true.
Proof.
  unfold is_ws3. intros H. apply existsb_exists in H as [[[x y] z] [Hin H]].
  apply andb_prop in H as [H H3]. apply andb_prop in H as [H1 H2].
  apply Ascii.eqb_eq in H1, H2, H3. subst.
  cbn in Hin. repeat (destruct Hin as [Hin|Hin]; [injection Hin as <- <- <-; repeat split; reflexivity|]).
  contradiction.
Qed.

Lemma plain_ws_head (c : ascii) (t : string) : plain c = true -> ws_head (String c t) = None.
Proof.
  unfold plain. intros H. apply andb_prop in H as [H1 H2]. apply negb_true_iff in H1, H2.
  unfold ws_head. rewrite H2. destruct t as [|b s2]; [reflexivity|].
  destruct (is_ws2 c b) eqn:E; [apply ws2_cont in E as [E _]; congruence|].
  destruct s2 as [|d s3]; [reflexivity|].
  destruct (is_ws3 c b d) eqn:E3; [apply ws3_cont in E3 as [E3 _]; congruence | reflexivity].
Qed.

(** A white-space character never ends at or past a one-byte character
    that is not white space. *)
Lemma ws_head_app (x t : string) (c : ascii) (r : string) :
  plain c = true -> ws_head (x +:+ String c t) = Some r ->
  exists x', r = x' +:+ String c t /\ (String.length x' < String.length x)%nat.
Proof.
  intros Hp. pose proof Hp as Hp'. unfold plain in Hp'.
  apply andb_prop in Hp' as [Hc Hw]. apply negb_true_iff in Hc, Hw.
  destruct x as [|a x1].
  - rewrite append_nil_l, plain_ws_head by exact Hp. discriminate.
  - rewrite append_cons. unfold ws_head. destruct (is_ws a).
    + intros [= <-]. exists x1. split; [reflexivity | cbn; lia].
    + destruct x1 as [|b x2].
      * rewrite append_nil_l.
        destruct (is_ws2 a c) eqn:E; [apply ws2_cont in E as [_ E]; congruence|].
        destruct t as [|d t']; [discriminate|].
        destruct (is_ws3 a c d) eqn:E3; [apply ws3_cont in E3 as (_ & E3 & _); congruence | discriminate].
      * rewrite append_cons. destruct (is_ws2 a b).
        -- intros [= <-]. exists x2. split; [reflexivity | cbn; lia].
        -- destruct x2 as [|d x3].
           ++ rewrite append_nil_l.
              destruct (is_ws3 a b c) eqn:E3; [apply ws3_cont in E3 as (_ & _ & E3); congruence | discriminate].
           ++ rewrite append_cons. destruct (is_ws3 a b d);
                [intros [= <-]; exists x3; split; [reflexivity | cbn; lia] | discriminate].
Qed.

Lemma trim_start_eq (s : string) :
  trim_start s = match ws_head s with Some r => trim_start r | None => s end.
Proof.
  destruct s as [|a s1]; [reflexivity|]. cbn [trim_start]. unfold ws_head.
  destruct (is_ws a); [reflexivity|]. destruct s1 as [|b s2]; [reflexivity|].
  destruct (is_ws2 a b); [reflexivity|]. destruct s2 as [|c s3]; [reflexivity|].
  destruct (is_ws3 a b c); reflexivity.
Qed.

Lemma all_ws_eq (s : string) :
  all_ws s = match s with
             | EmptyString => true
             | _ => match ws_head s with Some r => all_ws r | None => false end
             end.
Proof.
  destruct s as [|a s1]; [reflexivity|]. cbn [all_ws]. unfold ws_head.
  destruct (is_ws a); [reflexivity|]. destruct s1 as [|b s2]; [reflexivity|].
  destruct (is_ws2 a b); [reflexivity|]. destruct s2 as [|c s3]; [reflexivity|].
  destruct (is_ws3 a b c); reflexivity.
Qed.

Lemma trim_start_plain (c : ascii) (t : string) :
  plain c = true -> trim_start (String c t) = String c t.
Proof. intros H. rewrite trim_start_eq, plain_ws_head by exact H. reflexivity. Qed.

Lemma trim_start_keep (x : string) (c : ascii) (t : string) :
  plain c = true -> exists x', trim_start (x +:+ String c t) = x' +:+ String c t.
Proof.
  intros Hp. remember (String.length x) as n eqn:En. revert x En.
  induction n as [n IH] using lt_wf_ind. intros x ->.
  rewrite trim_start_eq. destruct (ws_head (x +:+ String c t)) as [r|] eqn:E.
  - destruct (ws_head_app x t c r Hp E) as [x' [-> Hlt]]. exact (IH _ Hlt x' eq_refl).
  - exists x. reflexivity.
Qed.

Lemma all_ws_plain (x : string) (c : ascii) (t : string) :
  plain c = true -> all_ws (x +:+ String c t) = false.
Proof.
  intros Hp. remember (String.length x) as n eqn:En. revert x En.
  induction n as [n IH] using lt_wf_ind. intros x ->.
  rewrite all_ws_eq. destruct (x +:+ String c t) as [|a s] eqn:Es; [destruct x; discriminate|].
  rewrite <- Es. destruct (ws_head (x +:+ String c t)) as [r|] eqn:E; [|reflexivity].
  destruct (ws_head_app x t c r Hp E) as [x' [-> Hlt]]. exact (IH _ Hlt x' eq_refl).
Qed.

Lemma trim_end_plain (x : string) (c : ascii) (t : string) :
  plain c = true -> trim_end (x +:+ String c t) = x +:+ String c (trim_end t).
Proof.
  intros Hp. induction x as [|a x IH].
  - rewrite !append_nil_l. pose proof (all_ws_plain EmptyString c t Hp) as H.
    rewrite append_nil_l in H. cbn [trim_end]. rewrite H. reflexivity.
  - rewrite !append_cons. cbn [trim_end].
    rewrite <- (append_cons a x (String c t)), all_ws_plain by exact Hp.
    rewrite IH. reflexivity.
Qed.

Lemma split_colon_no_colon (x : string) :
  no_colon x = true -> split_colon x = [x].
Proof.
  induction x as [|c x IH]; simpl; [reflexivity|].
  destruct (is_colon c); simpl; [discriminate|].
  intros H. rewrite (IH H). reflexivity.
Qed.

Lemma split_colon_app (x y : string) :
  no_colon x = true -> split_colon (x +:+ String ":" y) = x :: split_colon y.
Proof.
  induction x as [|c x IH]; app_simpl; [reflexivity|].
  destruct (is_colon c); simpl; [discriminate|].
  intros H. rewrite (IH H). reflexivity.
Qed.

Lemma no_colon_uint_str (u : uint) : no_colon (uint_str u) = true.
Proof. induction u; simpl; auto. Qed.

Lemma no_colon_show_Z (z : Z) : no_colon (show_Z z) = true.
Proof.
  unfold show_Z. destruct (Z.to_int z); simpl; apply no_colon_uint_str.
Qed.

Lemma no_colon_action_prefix (a : action) : no_colon (action_prefix a) = true.
Proof. destruct a; reflexivity. Qed.

Definition starts_nondigit (s : string) : Prop :=
  match s with EmptyString => True | String c _ => digit_of c = None end.

Lemma read_digits_uint_str (u : uint) (rest : string) :
  starts_nondigit rest -> read_digits (uint_str u +:+ rest) = (u, rest).
Proof.
  intros Hr. induction u; app_simpl; try (rewrite IHu; reflexivity).
  destruct rest as [|c r]; simpl in *; [reflexivity|]. rewrite Hr. reflexivity.
Qed.

Lemma to_int_digits_nonempty (z : Z) : uint_nonempty (int_digits (Z.to_int z)) = true.
Proof.
  destruct (Z.to_int z) as [u|u] eqn:E; simpl; destruct u; try reflexivity;
    exfalso; pose proof (DecimalZ.of_to z) as H; rewrite E in H;
    simpl in H; subst z; simpl in E; discriminate.
Qed.

Lemma append_empty_r (s : string) : s +:+ EmptyString = s.
Proof. induction s; app_simpl; congruence. Qed.

Lemma read_signed_show_Z (z : Z) (rest : string) :
  starts_nondigit rest -> read_signed (show_Z z +:+ rest) = (Z.to_int z, rest).
Proof.
  intros Hr. pose proof (to_int_digits_nonempty z) as Hne.
  unfold show_Z. destruct (Z.to_int z) as [u|u]; simpl in *.
  - destruct u; try discriminate; unfold read_signed; app_simpl;
      rewrite (read_digits_uint_str _ _ Hr); reflexivity.
  - unfold read_signed. app_simpl. rewrite (read_digits_uint_str _ _ Hr). reflexivity.
Qed.

Lemma trim_start_show_Z (z : Z) (rest : string) :
  trim_start (show_Z z +:+ rest) = show_Z z +:+ rest.
Proof.
  pose proof (to_int_digits_nonempty z) as Hne.
  unfold show_Z. destruct (Z.to_int z) as [u|u]; cbn [int_digits] in Hne.
  - destruct u; try discriminate; cbn [uint_str]; rewrite append_cons;
      apply trim_start_plain; reflexivity.
  - rewrite append_cons. apply trim_start_plain. reflexivity.
Qed.

Lemma show_Z_nonempty (z : Z) : show_Z z <> EmptyString.
Proof.
  pose proof (to_int_digits_nonempty z) as Hne.
  unfold show_Z. destruct (Z.to_int z) as [u|u]; simpl in *; [|discriminate].
  destruct u; discriminate.
Qed.

Lemma parseInt_show_Z (z : Z) : js_parseInt (Some (show_Z z)) = JNum z.
Proof.
  unfold js_parseInt.
  rewrite <- (append_empty_r (show_Z z)), trim_start_show_Z, read_signed_show_Z by exact I.
  rewrite to_int_digits_nonempty, DecimalZ.of_to. reflexivity.
Qed.

Lemma Number_show_Z (z : Z) : js_Number (show_Z z) = JNum z.
Proof.
  unfold js_Number.
  rewrite <- (append_empty_r (show_Z z)), trim_start_show_Z.
  rewrite append_empty_r.
  destruct (show_Z z) eqn:E; [exfalso; exact (show_Z_nonempty z E)|].
  rewrite <- E, <- (append_empty_r (show_Z z)), read_signed_show_Z by exact I.
  rewrite to_int_digits_nonempty, DecimalZ.of_to. reflexivity.
Qed.

Lemma created_at_show_Z (z : Z) : created_at (Some (show_Z z)) = JNum z.
Proof.
  unfold created_at. destruct (show_Z z) eqn:E.
  - exfalso; exact (show_Z_nonempty z E).
  - rewrite <- E. apply Number_show_Z.
Qed.

Lemma decode_encode (a : action) (p : Z) (u : string) (t : Z) :
  no_colon u = true ->
  decode (encode a p u t) =
    {| d_prefix := Some (action_prefix a); d_page := JNum p;
       d_invoker := Some u; d_created := JNum t |}.
Proof.
  intros Hu. unfold decode, encode.
  rewrite split_colon_app by apply no_colon_action_prefix.
  rewrite split_colon_app by apply no_colon_show_Z.
  rewrite split_colon_app by exact Hu.
  rewrite split_colon_no_colon by apply no_colon_show_Z.
  cbn [nth_error]. rewrite parseInt_show_Z, created_at_show_Z. reflexivity.
Qed.

Lemma prefix_userlist (a : action) : String.prefix "userlist" (action_prefix a) = true.
Proof. destruct a; reflexivity. Qed.

(** Redemption of a token built by the encoder, once decoded. *)
Lemma handle_encoded (object_values : gmap string cred -> list cred) (a : action) (p : Z)
    (actor user : string) (issuedAt now : Z) (file : gmap string cred) :
  no_colon actor = true ->
  handle_button object_values (encode a p actor issuedAt) user now file =
    if BUTTON_TTL <? now - issuedAt then Expired
    else if negb (String.eqb user actor) then Forbidden
    else View (buildUserlistPage (object_values file) (target_page (JNum p)) actor now).
Proof.
  intros Hu. unfold handle_button. rewrite (decode_encode a p actor issuedAt Hu).
  cbn [d_prefix d_created d_invoker d_page]. rewrite prefix_userlist. reflexivity.
Qed.

Lemma split_colon_pieces (s x : string) : In x (split_colon s) -> no_colon x = true.
Proof.
  revert x. induction s as [|c s IH]; intros x; cbn [split_colon].
  - intros [<- | []]. reflexivity.
  - destruct (is_colon c) eqn:Ec.
    + intros [<- | Hx]; [reflexivity | exact (IH x Hx)].
    + destruct (split_colon s) as [|r rs] eqn:Es.
      * intros [<- | []]. cbn. rewrite Ec. reflexivity.
      * intros [<- | Hx].
        -- cbn. rewrite Ec. apply (IH r). left. reflexivity.
        -- apply IH. right. exact Hx.
Qed.

(** The tokens the encoder is given: the [/userlist] command passes
    [interaction.user.id], a Discord id (decimal digits), and a redeemed
    button passes the invoker field of the decoded token, a piece of
    [split(':')], which holds no [:]. So every token the handler issues
    carries an actor id without [:], the redeemer's own. *)
Lemma handle_button_reissues (object_values : gmap string cred -> list cred)
    (cid user : string) (now : Z) (file : gmap string cred) (v : page_view) :
  handle_button object_values cid user now file = View v ->
  no_colon user = true /\
  pv_prev_id v = encode Prev (pv_page v - 1) user now /\
  pv_next_id v = encode Next (pv_page v + 1) user now.
Proof.
  unfold handle_button.
  assert (Hin : forall inv, d_invoker (decode cid) = Some inv -> no_colon inv = true).
  { intros inv Hi. apply (split_colon_pieces cid). apply (nth_error_In _ 2). exact Hi. }
  destruct (decode cid) as [dp dpg di dc]. cbn [d_prefix d_page d_invoker d_created] in *.
  destruct dp as [pre|]; [|discriminate].
  destruct (negb _); [discriminate|]. destruct (ttl_exceeded _ _); [discriminate|].
  destruct di as [inv|]; cbn [not_invoker]; [|discriminate].
  destruct (String.eqb_spec user inv) as [<-|]; cbn [negb]; [|discriminate].
  intros [= <-]. split; [exact (Hin user eq_refl)|]. split; reflexivity.
Qed.

(* ------------------------------------------------------------------ *)
(** ** Pagination token claims

    The actor ids the encoder is given contain no [:]
    ([handle_button_reissues]), so the claims below are stated for those
    tokens. *)

(** C2: for every action, integer target page, actor id (which holds no
    [:], as every actor id the code encodes) and integer issue time, the
    decoding of the encoded token yields the action's prefix, the page,
    the actor id and the issue time. *)
Theorem C2_roundtrip (a : action) (page : Z) (actorId : string) (issuedAt : Z) :
  no_colon actorId = true ->
  decode (encode a page actorId issuedAt) =
    {| d_prefix := Some (action_prefix a); d_page := JNum page;
       d_invoker := Some actorId; d_created := JNum issuedAt |}.
Proof. apply decode_encode. Qed.

Lemma C2_roundtrip_witness :
  no_colon "1447283337130676407" = true /\
  decode (encode Prev 3 "1447283337130676407" 1760000000000) =
    {| d_prefix := Some "userlist_prev"; d_page := JNum 3;
       d_invoker := Some "1447283337130676407"; d_created := JNum 1760000000000 |}.
Proof.
  split; [reflexivity|].
  apply (C2_roundtrip Prev 3 "1447283337130676407" 1760000000000). reflexivity.
Defined.

(** C1: for every token built by the encoder (its actor id holds no [:]),
    redemption fails with [Expired] exactly when [now - issuedAt > TTL]
    (TTL = 2 minutes): it does at [issuedAt + TTL + 1] and does not at
    [issuedAt + TTL - 1]. *)
Theorem C1_expiry (object_values : gmap string cred -> list cred) (a : action) (page : Z)
    (actorId user : string) (issuedAt now : Z) (file : gmap string cred) :
  no_colon actorId = true ->
  (handle_button object_values (encode a page actorId issuedAt) user now file = Expired
     <-> BUTTON_TTL < now - issuedAt) /\
  handle_button object_values (encode a page actorId issuedAt) user (issuedAt + BUTTON_TTL + 1) file
    = Expired /\
  handle_button object_values (encode a page actorId issuedAt) user (issuedAt + BUTTON_TTL - 1) file
    <> Expired.
Proof.
  intros Hu. rewrite !(handle_encoded object_values a page actorId user issuedAt _ file Hu).
  split; [|split].
  - destruct (Z.ltb_spec BUTTON_TTL (now - issuedAt)) as [Hlt|Hge].
    + tauto.
    + split; [|lia]. destruct (negb _); discriminate.
  - replace (issuedAt + BUTTON_TTL + 1 - issuedAt) with (BUTTON_TTL + 1) by lia.
    rewrite (proj2 (Z.ltb_lt _ _)) by lia. reflexivity.
  - replace (issuedAt + BUTTON_TTL - 1 - issuedAt) with (BUTTON_TTL - 1) by lia.
    rewrite (proj2 (Z.ltb_ge _ _)) by lia. destruct (negb _); discriminate.
Qed.

Lemma C1_expiry_witness :
  no_colon "42" = true /\
  handle_button gmap_values (encode Next 2 "42" 1000) "42" (1000 + BUTTON_TTL + 1) ∅ = Expired.
Proof.
  split; [reflexivity|].
  exact (proj1 (proj2 (C1_expiry gmap_values Next 2 "42" "42" 1000 0 ∅ eq_refl))).
Defined.

(** C3: for every token built by the encoder (its actor id holds no [:]),
    if [now - issuedAt <= TTL] and the redeemer differs from the actor
    id, redemption fails with [Forbidden] (no page is built). *)
Theorem C3_forbidden (object_values : gmap string cred -> list cred) (a : action) (page : Z)
    (actorId user : string) (issuedAt now : Z) (file : gmap string cred) :
  no_colon actorId = true ->
  now - issuedAt <= BUTTON_TTL ->
  user <> actorId ->
  handle_button object_values (encode a page actorId issuedAt) user now file = Forbidden.
Proof.
  intros Hu Ht Hne. rewrite (handle_encoded object_values a page actorId user issuedAt now file Hu).
  rewrite (proj2 (Z.ltb_ge _ _)) by lia.
  destruct (String.eqb_spec user actorId) as [E|_]; [contradiction | reflexivity].
Qed.

Lemma C3_forbidden_witness :
  no_colon "42" = true /\ 5000 - 1000 <= BUTTON_TTL /\ "7"%string <> "42"%string /\
  handle_button gmap_values (encode Prev 1 "42" 1000) "7" 5000 ∅ = Forbidden.
Proof.
  split; [reflexivity|]. split; [vm_compute; discriminate|]. split; [discriminate|].
  apply (C3_forbidden gmap_values Prev 1 "42" "7" 1000 5000 ∅);
    [reflexivity | vm_compute; discriminate | discriminate].
Defined.




(* ------------------------------------------------------------------ *)
(** ** Page math *)

Lemma ceil_div_spec (a b : Z) :
  0 < b -> (ceil_div a b - 1) * b < a <= ceil_div a b * b.
Proof.
  intros Hb. unfold ceil_div.
  pose proof (Z.div_mod (- a) b ltac:(lia)) as Hdm.
  pose proof (Z.mod_pos_bound (- a) b Hb) as Hm.
  nia.
Qed.

(** C4: for every record count [T >= 0] and page size [> 0], the page
    count is [max(1, k)] with [k] the ceiling of [T / pageSize] (the [k]
    with [(k-1)*pageSize < T <= k*pageSize]); every requested page is
    clamped into [[1, pageCount]], in-range pages are kept, and
    [buildUserlistPage] (page size 20) computes exactly these. With 20 per
    page: 0 records give 1 page, 20 give 1, 21 give 2, and page 5 of 21
    records renders page 2. *)
Theorem C4_page_math (pageSize total page : Z) :
  0 < pageSize -> 0 <= total ->
  (exists k, (k - 1) * pageSize < total <= k * pageSize /\
             page_count pageSize total = Z.max 1 k) /\
  1 <= clamp_page page (page_count pageSize total) <= page_count pageSize total /\
  (1 <= page <= page_count pageSize total ->
     clamp_page page (page_count pageSize total) = page) /\
  (forall all invokerId now,
     pv_pages (buildUserlistPage all page invokerId now)
       = page_count PAGE_SIZE (Z.of_nat (length all)) /\
     pv_page (buildUserlistPage all page invokerId now)
       = clamp_page page (page_count PAGE_SIZE (Z.of_nat (length all)))) /\
  page_count PAGE_SIZE 0 = 1 /\ page_count PAGE_SIZE 20 = 1 /\
  page_count PAGE_SIZE 21 = 2 /\
  (forall c invokerId now,
     pv_pages (buildUserlistPage (repeat c 21) 5 invokerId now) = 2 /\
     pv_page (buildUserlistPage (repeat c 21) 5 invokerId now) = 2).
Proof.
  intros Hps Ht.
  assert (Hpc : 1 <= page_count pageSize total) by (unfold page_count; lia).
  split; [|split; [|split; [|split]]].
  - exists (ceil_div total pageSize). split; [apply ceil_div_spec; exact Hps | reflexivity].
  - unfold clamp_page. lia.
  - intros Hin. unfold clamp_page. lia.
  - intros all invokerId now. split; reflexivity.
  - repeat split; reflexivity.
Qed.

Lemma C4_page_math_witness :
  0 < 20 /\ 0 <= 45 /\
  1 <= clamp_page 7 (page_count 20 45) <= page_count 20 45.
Proof.
  split; [lia|]. split; [lia|].
  exact (proj1 (proj2 (C4_page_math 20 45 7 ltac:(lia) ltac:(lia)))).
Defined.

(* ------------------------------------------------------------------ *)
(** ** The refresh pass *)

Section RefreshProofs.

Variable oauth_refresh : string -> string -> token_resp.

Abbreviation entry := (refresh_entry oauth_refresh).
Abbreviation result := (refreshed_record oauth_refresh).

Lemma set_refresh_token_same (c : cred) : set_refresh_token c (refresh_token c) = c.
Proof. destruct c; reflexivity. Qed.

Lemma refresh_entry_step (users : gmap string cred) (r d : nat) (k : string) (c : cred) :
  users !! k = Some c ->
  entry (users, r, d) (k, c) =
    match result k c with
    | Some c' => (<[k := c']> users, S r, d)
    | None => (delete k users, r, S d)
    end.
Proof.
  intros Hk. unfold refresh_entry, refreshed_record.
  destruct (refresh_token c) as [[|ch s]|] eqn:Ert; try reflexivity.
  destruct (oauth_refresh k (String ch s)) as [|[td|]]; try reflexivity.
  destruct (truthy (td_access_token td)) eqn:Ea; cbn [negb]; [|reflexivity].
  rewrite Hk. unfold rotate.
  destruct (truthy (td_refresh_token td)) eqn:Er; cbn [refresh_token set_refresh_token].
  - rewrite Er. reflexivity.
  - cbn. rewrite Ert. cbn. rewrite <- Ert.
    replace (refresh_token c) with (refresh_token (set_access_token c (td_access_token td)))
      by reflexivity.
    rewrite set_refresh_token_same. reflexivity.
Qed.

(** The fold over a duplicate-free list of entries of the store: each
    listed key ends with its entry's result, the others are untouched,
    and each entry is counted once. *)
Lemma refresh_fold (l : list (string * cred)) (users : gmap string cred) (r d : nat) :
  NoDup l.*1 ->
  (forall k c, (k, c) ∈ l -> users !! k = Some c) ->
  let '(users', r', d') := fold_left entry l (users, r, d) in
  (r' + d' = r + d + length l)%nat /\
  (forall k c, (k, c) ∈ l -> users' !! k = result k c) /\
  (forall k, k ∉ l.*1 -> users' !! k = users !! k).
Proof.
  revert users r d. induction l as [|[k0 c0] l IH]; intros users r d Hnd Hin; cbn [fold_left].
  - split; [simpl; lia|]. split; [intros k c Hkc; set_solver | intros; reflexivity].
  - rewrite fmap_cons, NoDup_cons in Hnd. destruct Hnd as [Hk0 Hnd]. cbn [fst] in Hk0.
    assert (Hu0 : users !! k0 = Some c0) by (apply Hin; left).
    rewrite (refresh_entry_step users r d k0 c0 Hu0).
    set (users1 := match result k0 c0 with
                   | Some c' => <[k0 := c']> users | None => delete k0 users end).
    assert (H1k0 : users1 !! k0 = result k0 c0).
    { unfold users1. destruct (result k0 c0); simplify_map_eq; reflexivity. }
    assert (H1k : forall k, k <> k0 -> users1 !! k = users !! k).
    { intros k Hne. unfold users1. destruct (result k0 c0); simplify_map_eq; reflexivity. }
    assert (Hin1 : forall k c, (k, c) ∈ l -> users1 !! k = Some c).
    { intros k c Hkc. rewrite H1k.
      - apply Hin. right. exact Hkc.
      - intros ->. apply Hk0. apply (list_elem_of_fmap_2 fst l (k0, c)). exact Hkc. }
    destruct (result k0 c0) as [c'|] eqn:Eres;
    [specialize (IH users1 (S r) d Hnd Hin1) | specialize (IH users1 r (S d) Hnd Hin1)];
    (destruct (fold_left entry l _) as [[users' r'] d'];
     destruct IH as [Hcnt [Hl Hout]]; cbn [length]; split; [lia|]; split).
    all: try (intros k c Hkc; apply elem_of_cons in Hkc as [[= -> ->] | Hkc];
              [rewrite Hout by exact Hk0; rewrite H1k0, Eres; reflexivity | apply Hl; exact Hkc]).
    all: intros k Hk; rewrite Hout by (intros Hl'; apply Hk; right; exact Hl');
         apply H1k; intros ->; apply Hk; left.
Qed.

(** The whole pass: nothing is saved and no counts are logged for an empty
    store; otherwise one save, of the store in which every record holds
    its entry's result, and counts summing to the store's size. *)
Lemma refresh_pass (file : gmap string cred) :
  (file = ∅ -> saves (refreshAllTokens oauth_refresh file) = [] /\
               report (refreshAllTokens oauth_refresh file) = None) /\
  (file <> ∅ -> exists users' refreshed deleted,
     saves (refreshAllTokens oauth_refresh file) = [users'] /\
     report (refreshAllTokens oauth_refresh file) = Some (refreshed, deleted) /\
     (refreshed + deleted = size file)%nat /\
     forall k, users' !! k = file !! k ≫= result k).
Proof.
  unfold refreshAllTokens.
  assert (Hin : forall k c, (k, c) ∈ map_to_list file -> file !! k = Some c)
    by (intros k c Hkc; apply elem_of_map_to_list; exact Hkc).
  pose proof (refresh_fold (map_to_list file) file 0 0 (NoDup_fst_map_to_list file) Hin) as Hf.
  pose proof (length_map_to_list file) as Hlen.
  pose proof (map_to_list_empty_iff file) as Hempty.
  destruct (map_to_list file) as [|e es] eqn:E.
  - split; [intros _; split; reflexivity|]. intros Hne. exfalso. apply Hne, Hempty. reflexivity.
  - split; [intros Hemp; apply Hempty in Hemp; discriminate|]. intros _.
    destruct (fold_left _ _ _) as [[users' r'] d'].
    destruct Hf as [Hcnt [Hl Hout]].
    exists users', r', d'. split; [reflexivity|]. split; [reflexivity|]. split; [lia|].
    intros k. destruct (file !! k) as [c|] eqn:Ek; simpl.
    + apply Hl. rewrite <- E. apply elem_of_map_to_list. exact Ek.
    + rewrite Hout, Ek; [reflexivity|].
      intros Hk. apply list_elem_of_fmap in Hk as [[k' c] [-> Hkc]].
      rewrite <- E in Hkc. apply elem_of_map_to_list in Hkc. cbn in Ek. congruence.
Qed.

End RefreshProofs.

Lemma refreshed_record_some (oauth_refresh : string -> string -> token_resp)
    (k : string) (c c' : cred) :
  refreshed_record oauth_refresh k c = Some c' ->
  exists rt tokenData, refresh_token c = Some rt /\ truthy (Some rt) = true /\
    oauth_refresh k rt = TJson (Some tokenData) /\ c' = rotate c tokenData.
Proof.
  unfold refreshed_record.
  destruct (refresh_token c) as [[|ch s]|] eqn:Ert; try discriminate.
  destruct (oauth_refresh k (String ch s)) as [|[td|]] eqn:Eo; try discriminate.
  destruct (truthy (td_access_token td)); [|discriminate].
  intros [= <-]. exists (String ch s), td. repeat split; assumption.
Qed.

Lemma rotate_durable (c : cred) (tokenData : token_data) :
  truthy (refresh_token c) = true -> truthy (refresh_token (rotate c tokenData)) = true.
Proof.
  intros H. unfold rotate. cbn [refresh_token set_refresh_token].
  destruct (truthy (td_refresh_token tokenData)) eqn:E; assumption.
Qed.

(* ------------------------------------------------------------------ *)
(** ** Credential Refresher claims *)

(** C5 (as stated): every pass reports counts summing to the population
    size. False for the empty store: the pass returns early, logging
    "No users to refresh." and no counts. *)
Lemma C5_counts_counterexample :
  ~ exists refreshed deleted,
      report (refreshAllTokens (fun _ _ => TThrew) ∅) = Some (refreshed, deleted).
Proof. intros (r & d & H). vm_compute in H. discriminate. Qed.

(** C5 (amended): for every response of the token endpoint and every
    store, a pass over a non-empty store reports [refreshed] and [deleted]
    with [refreshed + deleted] equal to the number of records; a pass that
    reports no counts ran on the empty store. *)
Theorem C5_counts (oauth_refresh : string -> string -> token_resp) (file : gmap string cred) :
  match report (refreshAllTokens oauth_refresh file) with
  | Some (refreshed, deleted) => (refreshed + deleted = size file)%nat
  | None => file = ∅
  end.
Proof.
  destruct (refresh_pass oauth_refresh file) as [Hemp Hne].
  destruct (decide (file = ∅)) as [E|E].
  - rewrite (proj2 (Hemp E)). exact E.
  - destruct (Hne E) as (users' & r & d & _ & -> & Hc & _). exact Hc.
Qed.

(** C6: for every response of the token endpoint and every store, each
    store saved by the pass has only records with a refresh token; a
    record entering without one is absent from it; a record kept carries
    the new access token and the new refresh token, or its existing one
    when the response has none. *)
Theorem C6_durable (oauth_refresh : string -> string -> token_resp)
    (file saved : gmap string cred) :
  saved ∈ saves (refreshAllTokens oauth_refresh file) ->
  (forall k c, saved !! k = Some c -> truthy (refresh_token c) = true) /\
  (forall k c, file !! k = Some c -> truthy (refresh_token c) = false -> saved !! k = None) /\
  (forall k c c', file !! k = Some c -> saved !! k = Some c' ->
     exists rt tokenData, refresh_token c = Some rt /\
       oauth_refresh k rt = TJson (Some tokenData) /\
       access_token c' = td_access_token tokenData /\
       refresh_token c' = (if truthy (td_refresh_token tokenData)
                           then td_refresh_token tokenData else refresh_token c)).
Proof.
  intros Hs. destruct (refresh_pass oauth_refresh file) as [Hemp Hne].
  destruct (decide (file = ∅)) as [E|E].
  { rewrite (proj1 (Hemp E)) in Hs. apply not_elem_of_nil in Hs. contradiction. }
  destruct (Hne E) as (users' & r & d & Hsv & _ & _ & Hk). rewrite Hsv in Hs.
  apply list_elem_of_singleton in Hs. subst saved.
  split; [|split].
  - intros k c Hc. rewrite Hk in Hc.
    destruct (file !! k) as [c0|]; [|discriminate]. simpl in Hc.
    apply refreshed_record_some in Hc as (rt & td & Ert & Ht & _ & ->).
    apply rotate_durable. rewrite Ert. exact Ht.
  - intros k c Hc Hrt. rewrite Hk, Hc. simpl.
    unfold refreshed_record. destruct (refresh_token c) as [[|ch s]|]; try reflexivity.
    discriminate.
  - intros k c c' Hc Hc'. rewrite Hk, Hc in Hc'. simpl in Hc'.
    apply refreshed_record_some in Hc' as (rt & td & Ert & _ & Ho & ->).
    exists rt, td. split; [exact Ert|]. split; [exact Ho|]. split; reflexivity.
Qed.

Lemma C6_durable_witness :
  let oauth_refresh := fun _ _ => TJson (Some {| td_access_token := Some "a2";
                                                 td_refresh_token := None;
                                                 td_token_type := Some "Bearer" |}) in
  let file : gmap string cred :=
    {["1" := {| id := "1"; username := "u"; verifiedAt := "t"; ip := "Unknown";
                avatar := None; access_token := Some "a1"; refresh_token := Some "r1" |}]} in
  exists saved,
    saved ∈ saves (refreshAllTokens oauth_refresh file) /\
    (forall k c, saved !! k = Some c -> truthy (refresh_token c) = true).
Proof.
  intros oauth_refresh file.
  destruct (saves (refreshAllTokens oauth_refresh file)) as [|saved rest] eqn:Es;
    [vm_compute in Es; discriminate|].
  exists saved.
  assert (Hm : saved ∈ saves (refreshAllTokens oauth_refresh file)) by (rewrite Es; left).
  split; [left | exact (proj1 (C6_durable oauth_refresh file saved Hm))].
Defined.

(** C7 (as stated): every pass, the empty store included, saves exactly
    once. False for the empty store: the pass returns before the save. *)
Lemma C7_single_save_counterexample :
  length (saves (refreshAllTokens (fun _ _ => TThrew) ∅)) <> 1%nat.
Proof. vm_compute. discriminate. Qed.

(** C7 (amended): for every response of the token endpoint, a pass over
    a non-empty store saves exactly once, after the whole loop, a store in
    which every record holds its entry's result (evicted, or rotated); a
    pass over the empty store saves nothing. *)
Theorem C7_single_save (oauth_refresh : string -> string -> token_resp)
    (file : gmap string cred) :
  (file = ∅ -> saves (refreshAllTokens oauth_refresh file) = []) /\
  (file <> ∅ -> exists saved,
     saves (refreshAllTokens oauth_refresh file) = [saved] /\
     forall k, saved !! k = file !! k ≫= refreshed_record oauth_refresh k).
Proof.
  destruct (refresh_pass oauth_refresh file) as [Hemp Hne]. split.
  - intros E. exact (proj1 (Hemp E)).
  - intros E. destruct (Hne E) as (users' & r & d & Hs & _ & _ & Hk).
    exists users'. split; assumption.
Qed.

Lemma C7_single_save_witness :
  saves (refreshAllTokens (fun _ _ => TThrew) ∅) = [] /\
  exists saved,
    saves (refreshAllTokens (fun _ _ => TThrew)
             {["1" := {| id := "1"; username := "u"; verifiedAt := "t"; ip := "Unknown";
                         avatar := None; access_token := Some "a1";
                         refresh_token := Some "r1" |}]}) = [saved] /\
    forall k, saved !! k = None.
Proof.
  split.
  - apply (proj1 (C7_single_save (fun _ _ => TThrew) ∅)). reflexivity.
  - destruct (proj2 (C7_single_save (fun _ _ => TThrew)
             {["1" := {| id := "1"; username := "u"; verifiedAt := "t"; ip := "Unknown";
                         avatar := None; access_token := Some "a1";
                         refresh_token := Some "r1" |}]}) ltac:(apply map_non_empty_singleton))
      as (saved & Hs & Hk).
    exists saved. split; [exact Hs|]. intros k. rewrite Hk.
    destruct (decide (k = "1")) as [->|Hne].
    + vm_compute. reflexivity.
    + rewrite lookup_singleton_ne by congruence. reflexivity.
Defined.

(* ------------------------------------------------------------------ *)
(** ** Batch Dispatcher *)

Section Batches.

Context {A : Type}.
Variables (bs : nat) (delay : Z) (l : list A).
Hypothesis bs_pos : (0 < bs)%nat.

Lemma batch_loop_done (fuel i : nat) :
  (length l <= i)%nat -> batch_loop bs delay l fuel i = [].
Proof.
  intros Hi. destruct fuel; simpl; [reflexivity|].
  destruct (Nat.ltb_spec i (length l)); [lia | reflexivity].
Qed.

Lemma batch_loop_render (fuel i : nat) :
  (length l - i <= fuel * bs)%nat ->
  exists bss,
    batch_loop bs delay l fuel i = render delay bss /\
    concat bss = skipn i l /\
    Forall (fun b => length b = bs) (removelast bss) /\
    Forall (fun b => 0 < length b <= bs)%nat bss.
Proof.
  revert i. induction fuel as [|fuel IH]; intros i Hf; simpl.
  - exists []. repeat split; try constructor.
    simpl. symmetry. apply skipn_all2. lia.
  - destruct (Nat.ltb_spec i (length l)) as [Hi|Hi].
    2: { exists []. repeat split; try constructor. simpl. symmetry. apply skipn_all2. lia. }
    set (b := firstn bs (skipn i l)).
    assert (Hsk : length (skipn i l) = (length l - i)%nat) by apply length_skipn.
    destruct (Nat.ltb_spec (i + bs) (length l)) as [Hn|Hn].
    + destruct (IH (i + bs)%nat ltac:(lia)) as (bss & Htr & Hcat & Hfull & Hsz).
      assert (Hb : length b = bs) by (unfold b; rewrite length_firstn; lia).
      destruct bss as [|b' bss'].
      { exfalso. simpl in Hcat. symmetry in Hcat.
        apply (f_equal (@length A)) in Hcat. rewrite length_skipn in Hcat. simpl in Hcat. lia. }
      exists (b :: b' :: bss'). split; [|split; [|split]].
      * rewrite Htr. reflexivity.
      * cbn [concat]. cbn [concat] in Hcat. rewrite Hcat.
        unfold b. replace (i + bs)%nat with (bs + i)%nat by lia.
        rewrite <- skipn_skipn. apply firstn_skipn.
      * change (removelast (b :: b' :: bss')) with (b :: removelast (b' :: bss')).
        constructor; assumption.
      * constructor; [lia | assumption].
    + rewrite batch_loop_done by lia.
      exists [b]. split; [reflexivity|]. split; [|split].
      * simpl. rewrite app_nil_r. unfold b. apply firstn_all2. lia.
      * constructor.
      * constructor; [|constructor]. unfold b. rewrite length_firstn. lia.
Qed.

End Batches.

(** C8: for every batch size [> 0] and every population, the loop's trace
    is the policy's trace for a partition of the population into
    contiguous batches, all of [batchSize] records except the last, which
    has between 1 and [batchSize]; each batch is issued and settled before
    the next is issued, with a wait between consecutive batches and none
    after the last. [/addall] (5 per batch) on 13 records issues batches
    of 5, 5 and 3 and waits twice. *)
Theorem C8_batches {A : Type} (batchSize : nat) (delay : Z) (entries : list A) :
  (0 < batchSize)%nat ->
  (exists bss,
     dispatch batchSize delay entries = render delay bss /\
     concat bss = entries /\
     Forall (fun b => length b = batchSize) (removelast bss) /\
     Forall (fun b => 0 < length b <= batchSize)%nat bss) /\
  (forall l : list (string * cred), length l = 13%nat ->
     issued_sizes (addall_dispatch l) = [5; 5; 3]%nat /\
     wait_count (addall_dispatch l) = 2%nat).
Proof.
  intros Hbs. split.
  - destruct (batch_loop_render batchSize delay entries Hbs (length entries) 0 ltac:(nia))
      as (bss & Htr & Hcat & Hfull & Hsz).
    exists bss. repeat split; assumption.
  - intros l Hl.
    do 13 (destruct l as [|? l]; [discriminate|]).
    destruct l; [|discriminate]. split; reflexivity.
Qed.

Lemma C8_batches_witness :
  (0 < 5)%nat /\
  exists bss, dispatch 5 DELAY [1; 2; 3; 4; 5; 6; 7]%nat = render DELAY bss /\
              concat bss = [1; 2; 3; 4; 5; 6; 7]%nat.
Proof.
  split; [lia|].
  destruct (proj1 (C8_batches 5 DELAY [1; 2; 3; 4; 5; 6; 7]%nat ltac:(lia)))
    as (bss & Htr & Hcat & _).
  exists bss. split; assumption.
Defined.

(* ------------------------------------------------------------------ *)
(** ** OAuth callback *)

(** C9 (as stated): a missing or invalid code, or a failed token exchange,
    gets a client error. False: a code the endpoint rejects (a response
    without [access_token]) gets status 500, a server error. *)
Lemma C9_callback_counterexample :
  let r := callback (Some "bad-code") "203.0.113.7" "2026-10-19T00:00:00.000Z"
             (fun _ => TJson (Some {| td_access_token := None; td_refresh_token := None;
                                      td_token_type := None |}))
             (fun _ => MeThrew) ∅ in
  fst r = 500 /\ ~ (400 <= fst r < 500).
Proof.
  intros r. assert (Hr : fst r = 500) by (vm_compute; reflexivity).
  rewrite Hr. split; [reflexivity | lia].
Qed.

(** C9 (amended): for every request, a missing or empty code gets 400;
    a code whose exchange throws, returns [null] or returns no access
    token gets 500; in both cases [users.json] is left as it was. *)
Theorem C9_callback_errors (code : option string) (client_ip now_iso : string)
    (exchange : string -> token_resp) (me : token_data -> me_resp)
    (file : gmap string cred) :
  (truthy code = false -> callback code client_ip now_iso exchange me file = (400, file)) /\
  (forall c, code = Some c -> truthy code = true ->
     (exchange c = TThrew \/ exchange c = TJson None \/
      exists tokenData, exchange c = TJson (Some tokenData) /\
                        truthy (td_access_token tokenData) = false) ->
     callback code client_ip now_iso exchange me file = (500, file)).
Proof.
  split.
  - intros Hc. destruct code as [[|ch s]|]; [reflexivity | discriminate | reflexivity].
  - intros c -> Hc Hx. destruct c as [|ch s]; [discriminate|]. unfold callback.
    destruct Hx as [-> | [-> | (td & -> & Ha)]]; [reflexivity | reflexivity|].
    rewrite Ha. reflexivity.
Qed.

Lemma C9_callback_errors_witness :
  callback None "203.0.113.7" "2026-10-19T00:00:00.000Z"
    (fun _ => TThrew) (fun _ => MeThrew) ∅ = (400, ∅) /\
  callback (Some "bad-code") "203.0.113.7" "2026-10-19T00:00:00.000Z"
    (fun _ => TThrew) (fun _ => MeThrew) ∅ = (500, ∅).
Proof.
  split.
  - apply (proj1 (C9_callback_errors None "203.0.113.7" "2026-10-19T00:00:00.000Z"
                    (fun _ => TThrew) (fun _ => MeThrew) ∅)).
    reflexivity.
  - apply (proj2 (C9_callback_errors (Some "bad-code") "203.0.113.7" "2026-10-19T00:00:00.000Z"
                    (fun _ => TThrew) (fun _ => MeThrew) ∅) "bad-code");
      [reflexivity | reflexivity | left; reflexivity].
Defined.

(* ------------------------------------------------------------------ *)
(** ** [buildUserlistPage]: pages, slices and navigation *)

Lemma build_page_range (all : list cred) (page : Z) (invokerId : string) (now : Z) :
  1 <= pv_page (buildUserlistPage all page invokerId now)
    <= pv_pages (buildUserlistPage all page invokerId now) /\
  pv_pages (buildUserlistPage all page invokerId now)
    = page_count PAGE_SIZE (Z.of_nat (length all)).
Proof.
  unfold buildUserlistPage. cbn [pv_page pv_pages]. unfold clamp_page, page_count. lia.
Qed.

Lemma firstn_add_split {A} (a b : nat) (l : list A) :
  firstn (a + b) l = firstn a l ++ firstn b (skipn a l).
Proof.
  revert l. induction a as [|a IH]; intros [|x l]; simpl; try reflexivity.
  - rewrite firstn_nil. reflexivity.
  - f_equal. apply IH.
Qed.

Lemma concat_chunks {A} (n k : nat) (l : list A) :
  concat (map (fun p => firstn n (skipn ((p - 1) * n) l)) (seq 1 k)) = firstn (k * n) l.
Proof.
  induction k as [|k IH]; [reflexivity|].
  rewrite seq_S, map_app, concat_app, IH. simpl. rewrite app_nil_r.
  replace (S k - 1)%nat with k by lia. replace (n + k * n)%nat with (k * n + n)%nat by lia.
  rewrite firstn_add_split, Nat.sub_0_r. reflexivity.
Qed.

Lemma page_count_covers (total : Z) :
  0 <= total -> total <= page_count PAGE_SIZE total * PAGE_SIZE.
Proof.
  intros Ht. pose proof (ceil_div_spec total PAGE_SIZE ltac:(reflexivity)).
  unfold page_count, PAGE_SIZE in *. lia.
Qed.

(** [buildUserlistPage] renders at most 20 records, and at least one as
    soon as the store is not empty (the requested page is clamped to an
    existing one). *)
Theorem userlist_slice_bounds (all : list cred) (page : Z) (invokerId : string) (now : Z) :
  (length (pv_slice (buildUserlistPage all page invokerId now)) <= 20)%nat /\
  (all <> [] -> pv_slice (buildUserlistPage all page invokerId now) <> []).
Proof.
  destruct (build_page_range all page invokerId now) as [Hr Hpc].
  set (p := pv_page (buildUserlistPage all page invokerId now)) in *.
  assert (Hs : pv_slice (buildUserlistPage all page invokerId now)
               = firstn 20 (skipn (Z.to_nat ((p - 1) * 20)) all)).
  { unfold p, buildUserlistPage, js_slice. cbn [pv_slice pv_page]. unfold PAGE_SIZE.
    f_equal. lia. }
  rewrite Hs. split.
  - rewrite length_firstn. lia.
  - intros Hne Hnil. apply (f_equal (@length cred)) in Hnil.
    rewrite length_firstn, length_skipn in Hnil. change (length (@nil cred)) with 0%nat in Hnil.
    assert (Hlen : (0 < length all)%nat) by (destruct all; [contradiction | simpl; lia]).
    pose proof (ceil_div_spec (Z.of_nat (length all)) PAGE_SIZE ltac:(reflexivity)).
    unfold page_count, PAGE_SIZE in *. lia.
Qed.

(** Over the pages [1 .. pageCount], the rendered slices put together are
    the whole store, in order: every record is shown on exactly one page. *)
Theorem userlist_pages_partition (all : list cred) (invokerId : string) (now : Z) :
  concat (map (fun p : nat => pv_slice (buildUserlistPage all (Z.of_nat p) invokerId now))
              (seq 1 (Z.to_nat (page_count PAGE_SIZE (Z.of_nat (length all)))))) = all.
Proof.
  set (pages := page_count PAGE_SIZE (Z.of_nat (length all))).
  assert (Hp1 : 1 <= pages) by (unfold pages, page_count; lia).
  pose proof (page_count_covers (Z.of_nat (length all)) ltac:(lia)) as Hcov.
  fold pages in Hcov. unfold PAGE_SIZE in Hcov.
  rewrite (map_ext_in _ (fun p => firstn 20 (skipn ((p - 1) * 20) all))).
  - rewrite concat_chunks. apply firstn_all2. lia.
  - intros p Hp. apply in_seq in Hp.
    unfold buildUserlistPage, js_slice. cbn [pv_slice]. fold pages. unfold clamp_page.
    replace (Z.min (Z.max 1 (Z.of_nat p)) pages) with (Z.of_nat p) by lia.
    unfold PAGE_SIZE. f_equal; [lia | f_equal; lia].
Qed.

(** Pressing "Next" (resp. "Previous") on a rendered page, by the invoker
    and within the button lifetime, over the same store, renders the
    following (resp. preceding) page, staying on the last (resp. first)
    page at the ends; the new page carries buttons stamped with the time
    of the press. "Previous" is disabled exactly on page 1 and "Next"
    exactly on the last page. *)
Theorem userlist_navigation (object_values : gmap string cred -> list cred)
    (file : gmap string cred) (page : Z) (invokerId : string) (issuedAt now : Z) :
  no_colon invokerId = true ->
  now - issuedAt <= BUTTON_TTL ->
  let v := buildUserlistPage (object_values file) page invokerId issuedAt in
  (exists w, handle_button object_values (pv_next_id v) invokerId now file = View w /\
     pv_page w = Z.min (pv_page v + 1) (pv_pages v) /\ pv_pages w = pv_pages v /\
     pv_timestamp w = now) /\
  (exists w, handle_button object_values (pv_prev_id v) invokerId now file = View w /\
     pv_page w = Z.max 1 (pv_page v - 1) /\ pv_pages w = pv_pages v /\
     pv_timestamp w = now) /\
  (pv_prev_disabled v = true <-> pv_page v = 1) /\
  (pv_next_disabled v = true <-> pv_page v = pv_pages v).
Proof.
  intros Hu Ht v.
  destruct (build_page_range (object_values file) page invokerId issuedAt) as [Hr Hpc].
  fold v in Hr, Hpc.
  assert (Hlt : (BUTTON_TTL <? now - issuedAt) = false) by (apply Z.ltb_ge; lia).
  split; [|split; [|split]].
  - change (pv_next_id v) with (encode Next (pv_page v + 1) invokerId issuedAt).
    rewrite handle_encoded by exact Hu. rewrite Hlt, String.eqb_refl. cbn [negb].
    eexists. split; [reflexivity|]. split; [|split; reflexivity].
    unfold buildUserlistPage. cbn [pv_page].
    rewrite Hpc. unfold target_page, clamp_page.
    destruct (Z.ltb_spec (pv_page v + 1) 1); lia.
  - change (pv_prev_id v) with (encode Prev (pv_page v - 1) invokerId issuedAt).
    rewrite handle_encoded by exact Hu. rewrite Hlt, String.eqb_refl. cbn [negb].
    eexists. split; [reflexivity|]. split; [|split; reflexivity].
    unfold buildUserlistPage. cbn [pv_page].
    unfold target_page, clamp_page.
    destruct (Z.ltb_spec (pv_page v - 1) 1); lia.
  - change (pv_prev_disabled v) with (pv_page v <=? 1). rewrite Z.leb_le. lia.
  - change (pv_next_disabled v) with (pv_pages v <=? pv_page v). rewrite Z.leb_le. lia.
Qed.

Lemma userlist_navigation_witness :
  no_colon "42" = true /\ 5000 - 1000 <= BUTTON_TTL /\
  let v := buildUserlistPage (gmap_values ∅) 3 "42" 1000 in
  (exists w, handle_button gmap_values (pv_next_id v) "42" 5000 ∅ = View w /\
     pv_page w = Z.min (pv_page v + 1) (pv_pages v) /\ pv_pages w = pv_pages v /\
     pv_timestamp w = 5000) /\
  (exists w, handle_button gmap_values (pv_prev_id v) "42" 5000 ∅ = View w /\
     pv_page w = Z.max 1 (pv_page v - 1) /\ pv_pages w = pv_pages v /\
     pv_timestamp w = 5000) /\
  (pv_prev_disabled v = true <-> pv_page v = 1) /\
  (pv_next_disabled v = true <-> pv_page v = pv_pages v).
Proof.
  split; [reflexivity|]. split; [vm_compute; discriminate|].
  apply (userlist_navigation gmap_values ∅ 3 "42" 1000 5000); [reflexivity | vm_compute; discriminate].
Defined.

(* ------------------------------------------------------------------ *)
(** ** [/cleanup] *)

Lemma size_delete_present {A} (m : gmap string A) (k : string) (x : A) :
  m !! k = Some x -> S (size (delete k m)) = size m.
Proof.
  intros Hk. rewrite map_size_delete, Hk. simpl.
  assert (size m <> 0%nat).
  { intros H0. apply map_size_empty_iff in H0. subst m. rewrite lookup_empty in Hk. discriminate. }
  lia.
Qed.

Lemma cleanup_entry_step (me_probe : string -> probe) (users : gmap string cred)
    (removed : nat) (k : string) (c : cred) :
  cleanup_entry me_probe (users, removed) (k, c) =
    if cleanup_keeps me_probe c then (users, removed) else (delete k users, S removed).
Proof.
  unfold cleanup_entry, cleanup_keeps.
  destruct (access_token c) as [[|ch s]|]; try reflexivity.
  destruct (me_probe (String ch s)) as [|[|]]; reflexivity.
Qed.

Lemma cleanup_fold (me_probe : string -> probe) (l : list (string * cred))
    (users : gmap string cred) (removed : nat) :
  NoDup l.*1 ->
  (forall k c, (k, c) ∈ l -> users !! k = Some c) ->
  let '(users', removed') := fold_left (cleanup_entry me_probe) l (users, removed) in
  (size users' + removed' = size users + removed)%nat /\
  (forall k c, (k, c) ∈ l -> users' !! k = if cleanup_keeps me_probe c then Some c else None) /\
  (forall k, k ∉ l.*1 -> users' !! k = users !! k).
Proof.
  revert users removed. induction l as [|[k0 c0] l IH]; intros users removed Hnd Hin; cbn [fold_left].
  - split; [lia|]. split; [intros k c Hkc; set_solver | intros; reflexivity].
  - rewrite fmap_cons, NoDup_cons in Hnd. destruct Hnd as [Hk0 Hnd]. cbn [fst] in Hk0.
    assert (Hu0 : users !! k0 = Some c0) by (apply Hin; left).
    assert (Hne : forall k c, (k, c) ∈ l -> k <> k0).
    { intros k c Hkc ->. apply Hk0. apply (list_elem_of_fmap_2 fst l (k0, c)). exact Hkc. }
    rewrite cleanup_entry_step.
    destruct (cleanup_keeps me_probe c0) eqn:Ek.
    + assert (Hin1 : forall k c, (k, c) ∈ l -> users !! k = Some c)
        by (intros k c Hkc; apply Hin; right; exact Hkc).
      specialize (IH users removed Hnd Hin1).
      destruct (fold_left _ l _) as [users' removed'].
      destruct IH as [Hs [Hl Ho]]. split; [exact Hs|]. split.
      * intros k c Hkc. apply elem_of_cons in Hkc as [[= Ek' Ec'] | Hkc].
        -- subst k c. rewrite Ho by exact Hk0. rewrite Hu0, Ek. reflexivity.
        -- apply Hl. exact Hkc.
      * intros k Hk. apply Ho. intros Hl'. apply Hk. right. exact Hl'.
    + assert (Hin1 : forall k c, (k, c) ∈ l -> delete k0 users !! k = Some c).
      { intros k c Hkc. rewrite lookup_delete_ne by (intros Heq; exact (Hne k c Hkc (eq_sym Heq))).
        apply Hin. right. exact Hkc. }
      specialize (IH (delete k0 users) (S removed) Hnd Hin1).
      destruct (fold_left _ l _) as [users' removed'].
      destruct IH as [Hs [Hl Ho]]. split.
      { pose proof (size_delete_present users k0 c0 Hu0). lia. }
      split.
      * intros k c Hkc. apply elem_of_cons in Hkc as [[= Ek' Ec'] | Hkc].
        -- subst k c. rewrite Ho by exact Hk0. rewrite lookup_delete_eq, Ek. reflexivity.
        -- apply Hl. exact Hkc.
      * intros k Hk. rewrite Ho by (intros Hl'; apply Hk; right; exact Hl').
        apply lookup_delete_ne. intros ->. apply Hk. left.
Qed.

(** [/cleanup] on an empty store answers "No users in users.json." and
    saves nothing. Otherwise it saves exactly the records that have an
    access token accepted by [GET /users/@me] (the others, those without
    a token included, are dropped), and the reported [removed] count is
    the number of records dropped. *)
Theorem cleanup_result (me_probe : string -> probe) (file : gmap string cred) :
  match cleanup me_probe file with
  | CleanupEmpty => file = ∅
  | CleanupDone saved removed =>
      file <> ∅ /\
      saved = filter (fun kv : string * cred => cleanup_keeps me_probe kv.2 = true) file /\
      (removed + size saved = size file)%nat
  end.
Proof.
  unfold cleanup.
  assert (Hin : forall k c, (k, c) ∈ map_to_list file -> file !! k = Some c)
    by (intros k c Hkc; apply elem_of_map_to_list; exact Hkc).
  pose proof (cleanup_fold me_probe (map_to_list file) file 0 (NoDup_fst_map_to_list file) Hin) as Hf.
  pose proof (map_to_list_empty_iff file) as Hempty.
  destruct (map_to_list file) as [|e es] eqn:E.
  - apply Hempty. reflexivity.
  - destruct (fold_left _ _ _) as [saved removed].
    destruct Hf as [Hs [Hl Ho]]. split; [|split; [|lia]].
    { intros ->. rewrite map_to_list_empty in E. discriminate. }
    apply map_eq. intros k. rewrite map_lookup_filter.
    destruct (file !! k) as [c|] eqn:Ek; simpl.
    + rewrite (Hl k c) by (rewrite <- E; apply elem_of_map_to_list; exact Ek).
      destruct (cleanup_keeps me_probe c) eqn:Ec; simpl; reflexivity.
    + rewrite Ho, Ek; [reflexivity|].
      intros Hk. apply list_elem_of_fmap in Hk as [[k' c] [-> Hkc]].
      rewrite <- E in Hkc. apply elem_of_map_to_list in Hkc. cbn in Ek. congruence.
Qed.

(* ------------------------------------------------------------------ *)
(** ** [/addall] *)

Lemma refreshed_record_token (oauth_refresh : string -> string -> token_resp)
    (k : string) (c c' : cred) :
  refreshed_record oauth_refresh k c = Some c' -> truthy (access_token c') = true.
Proof.
  unfold refreshed_record.
  destruct (refresh_token c) as [[|ch s]|]; try discriminate.
  destruct (oauth_refresh k (String ch s)) as [|[td|]]; try discriminate.
  destruct (truthy (td_access_token td)) eqn:Et; [|discriminate].
  intros [= <-]. exact Et.
Qed.

Definition put_ok (put_member : string -> string -> string -> probe)
    (x : string * string * string) : bool :=
  match put_member x.1.1 x.1.2 x.2 with PStatus true => true | _ => false end.

Lemma invite_fold (put_member : string -> string -> string -> probe) (g : string)
    (l : list (string * cred)) (s f : nat) :
  let '(s', f') := fold_left (invite_entry put_member g) l (s, f) in
  s' = (s + length (List.filter (put_ok put_member) (invite_calls g l)))%nat /\
  (s' + f' = s + f + length l)%nat.
Proof.
  unfold put_ok. revert s f. induction l as [|[k c] l IH]; intros s f; cbn [fold_left].
  - simpl. lia.
  - unfold invite_entry at 2. unfold invite_calls. cbn [flat_map fst snd].
    destruct (access_token c) as [[|ch t]|] eqn:Ea.
    + specialize (IH s (S f)). destruct (fold_left _ l _). simpl. fold (invite_calls g l). lia.
    + cbn [fst snd app List.filter].
      destruct (put_member g k (String ch t)) as [|[|]] eqn:Ep;
      [specialize (IH s (S f)) | specialize (IH (S s) f) | specialize (IH s (S f))];
      destruct (fold_left _ l _); fold (invite_calls g l); cbn [length]; lia.
    + specialize (IH s (S f)). destruct (fold_left _ l _). simpl. fold (invite_calls g l). lia.
Qed.

Lemma invite_calls_elem (g : string) (l : list (string * cred)) (x : string * string * string) :
  x ∈ invite_calls g l <->
  exists k c tok, x = (g, k, tok) /\ (k, c) ∈ l /\ access_token c = Some tok /\
                  truthy (Some tok) = true.
Proof.
  unfold invite_calls. rewrite list_elem_of_In, in_flat_map. split.
  - intros [[k c] [Hin Hx]]. cbn [fst snd] in Hx.
    destruct (access_token c) as [[|ch t]|] eqn:Ea; try contradiction.
    destruct Hx as [<- | []]. exists k, c, (String ch t).
    split; [reflexivity|]. split; [apply list_elem_of_In; exact Hin|]. split; [exact Ea | reflexivity].
  - intros (k & c & tok & -> & Hin & Ea & Ht). exists (k, c).
    split; [apply list_elem_of_In; exact Hin|]. cbn [fst snd]. rewrite Ea.
    destruct tok as [|ch t]; [discriminate|]. left. reflexivity.
Qed.

Lemma invite_calls_length (g : string) (l : list (string * cred)) :
  (forall k c, (k, c) ∈ l -> truthy (access_token c) = true) ->
  length (invite_calls g l) = length l.
Proof.
  induction l as [|[k c] l IH]; intros Hall; [reflexivity|].
  unfold invite_calls. cbn [flat_map fst snd]. fold (invite_calls g l).
  pose proof (Hall k c ltac:(left)) as Hc.
  destruct (access_token c) as [[|ch t]|]; try discriminate.
  cbn [app length]. f_equal. apply IH. intros k' c' Hin. apply (Hall k'). right. exact Hin.
Qed.

Lemma invite_calls_members (g : string) (l : list (string * cred)) :
  NoDup l.*1 -> NoDup (map (fun x : string * string * string => x.1.2) (invite_calls g l)).
Proof.
  induction l as [|[k c] l IH]; intros Hnd; [constructor|].
  rewrite fmap_cons, NoDup_cons in Hnd. destruct Hnd as [Hk Hnd]. cbn [fst] in Hk.
  unfold invite_calls. cbn [flat_map fst snd]. fold (invite_calls g l).
  destruct (access_token c) as [[|ch t]|]; try exact (IH Hnd).
  cbn [app map fst snd]. constructor; [|exact (IH Hnd)].
  intros Hin. apply list_elem_of_In, in_map_iff in Hin as [x [Hx Hin]].
  apply list_elem_of_In, invite_calls_elem in Hin as (k' & c' & tok & -> & Hin & _).
  cbn in Hx. subst k'. apply Hk. apply (list_elem_of_fmap_2 fst l (k, c')). exact Hin.
Qed.

(** [/addall serverid] on an empty store sends nothing. Otherwise the
    refresh pass runs first; if it evicts every record, nothing is sent.
    Else exactly one [PUT] is sent per record of the store the pass
    saved, to the guild [serverid] trimmed, for the members whose refresh
    succeeded, with their new access token (after a refresh every record
    has one, so the [!u.access_token] branch never counts a failure);
    [success] counts the [PUT]s answered [ok] and [success + failed] is
    the number of records. *)
Theorem addall_invites (oauth_refresh : string -> string -> token_resp)
    (put_member : string -> string -> string -> probe) (serverid : string)
    (file : gmap string cred) :
  match addall oauth_refresh put_member serverid file with
  | AddallEmpty => file = ∅
  | AddallEmptyAfterRefresh run => file <> ∅ /\ saves run = [∅]
  | AddallDone run calls success failed =>
      exists users', saves run = [users'] /\
      (forall g k tok, (g, k, tok) ∈ calls <->
         g = js_trim serverid /\
         exists c0 c, file !! k = Some c0 /\ refreshed_record oauth_refresh k c0 = Some c /\
                      access_token c = Some tok) /\
      NoDup (map (fun x : string * string * string => x.1.2) calls) /\
      length calls = size users' /\
      (success + failed = size users')%nat /\
      success = length (List.filter (put_ok put_member) calls)
  end.
Proof.
  destruct (refresh_pass oauth_refresh file) as [_ Hne].
  pose proof (map_to_list_empty_iff file) as Hempty.
  unfold addall. destruct (map_to_list file) as [|e es] eqn:E.
  { apply Hempty. reflexivity. }
  assert (Hf : file <> ∅) by (intros ->; rewrite map_to_list_empty in E; discriminate).
  destruct (Hne Hf) as (users' & r & d & Hs & _ & _ & Hk).
  cbn beta iota zeta. rewrite Hs. cbn [List.last].
  set (g := js_trim serverid).
  assert (Hall : forall k c, (k, c) ∈ map_to_list users' -> truthy (access_token c) = true).
  { intros k c Hkc. apply elem_of_map_to_list in Hkc. rewrite Hk in Hkc.
    destruct (file !! k) as [c0|]; [|discriminate]. simpl in Hkc.
    exact (refreshed_record_token oauth_refresh k c0 c Hkc). }
  pose proof (invite_calls_length g (map_to_list users') Hall) as Hlen.
  pose proof (invite_calls_members g (map_to_list users') (NoDup_fst_map_to_list users')) as Hnd.
  pose proof (invite_fold put_member g (map_to_list users') 0 0) as Hfold.
  rewrite length_map_to_list in Hlen.
  destruct (map_to_list users') as [|e' es'] eqn:E'.
  { split; [exact Hf|]. apply map_to_list_empty_iff in E'. rewrite Hs, E'. reflexivity. }
  rewrite <- E' in Hlen, Hnd, Hfold |- *.
  destruct (fold_left _ _ _) as [success failed].
  destruct Hfold as [Hsucc Hsum].
  exists users'. split; [exact Hs|]. split; [|split; [exact Hnd|split; [exact Hlen|]]].
  - intros g' k tok. rewrite invite_calls_elem. split.
    + intros (k' & c & tok' & [= -> -> ->] & Hin & Ea & _). split; [reflexivity|].
      apply elem_of_map_to_list in Hin. rewrite Hk in Hin.
      destruct (file !! k') as [c0|]; [|discriminate]. simpl in Hin.
      exists c0, c. split; [reflexivity|]. split; assumption.
    + intros [-> (c0 & c & Hc0 & Hr & Ea)]. exists k, c, tok.
      split; [reflexivity|]. split.
      * apply elem_of_map_to_list. rewrite Hk, Hc0. exact Hr.
      * split; [exact Ea|]. rewrite <- Ea. exact (refreshed_record_token oauth_refresh k c0 c Hr).
  - rewrite length_map_to_list in Hsum. split; [lia | exact Hsucc].
Qed.

(* ------------------------------------------------------------------ *)
(** ** [/useralts] *)

Lemma assoc_get_push_eq (k : string) (u : cred) (l : list (string * list cred)) (arr : list cred) :
  assoc_get k l = Some arr -> assoc_get k (assoc_push k u l) = Some (arr ++ [u]).
Proof.
  induction l as [|[k' a] l IH]; cbn; [discriminate|].
  destruct (String.eqb k k') eqn:E; cbn; rewrite E; [intros [= ->]; reflexivity | exact IH].
Qed.

Lemma assoc_get_push_ne (k k' : string) (u : cred) (l : list (string * list cred)) :
  k' <> k -> assoc_get k' (assoc_push k u l) = assoc_get k' l.
Proof.
  intros Hne. induction l as [|[k0 a] l IH]; cbn; [reflexivity|].
  destruct (String.eqb k k0) eqn:E; cbn.
  - apply String.eqb_eq in E. subst k0.
    destruct (String.eqb_spec k' k); [contradiction | reflexivity].
  - destruct (String.eqb k' k0); [reflexivity | exact IH].
Qed.

Lemma assoc_push_keys (k : string) (u : cred) (l : list (string * list cred)) :
  (assoc_push k u l).*1 = l.*1.
Proof.
  induction l as [|[k0 a] l IH]; cbn; [reflexivity|].
  destruct (String.eqb k k0); cbn; [reflexivity|]. f_equal. exact IH.
Qed.

Lemma assoc_get_app {A} (k : string) (l m : list (string * A)) :
  assoc_get k (l ++ m) = match assoc_get k l with Some v => Some v | None => assoc_get k m end.
Proof.
  induction l as [|[k0 a] l IH]; cbn; [reflexivity|].
  destruct (String.eqb k k0); [reflexivity | exact IH].
Qed.

Lemma assoc_get_elem {A} (k : string) (v : A) (l : list (string * A)) :
  NoDup l.*1 -> ((k, v) ∈ l <-> assoc_get k l = Some v).
Proof.
  induction l as [|[k0 a] l IH]; intros Hnd; cbn.
  - split; [intros H; apply not_elem_of_nil in H; contradiction | discriminate].
  - rewrite fmap_cons, NoDup_cons in Hnd. destruct Hnd as [Hk0 Hnd]. cbn [fst] in Hk0.
    rewrite elem_of_cons. destruct (String.eqb_spec k k0) as [->|Hne].
    + split.
      * intros [[= ->] | Hin]; [reflexivity|].
        exfalso. apply Hk0. apply (list_elem_of_fmap_2 fst l (k0, v)). exact Hin.
      * intros [= ->]. left. reflexivity.
    + rewrite <- IH by exact Hnd. split; [intros [[= -> _] | Hin]; [contradiction | exact Hin] | right; assumption].
Qed.

Lemma assoc_get_None_keys {A} (k : string) (l : list (string * A)) :
  assoc_get k l = None -> k ∉ l.*1.
Proof.
  induction l as [|[k0 a] l IH]; cbn; intros H.
  - apply not_elem_of_nil.
  - destruct (String.eqb_spec k k0); [discriminate|]. rewrite elem_of_cons.
    intros [-> | Hin]; [contradiction | exact (IH H Hin)].
Qed.

Lemma existsb_filter {A} (f : A -> bool) (l : list A) :
  existsb f l = match List.filter f l with [] => false | _ => true end.
Proof.
  induction l as [|x l IH]; cbn; [reflexivity|].
  destruct (f x); cbn; [reflexivity | exact IH].
Qed.

Lemma group_fold_none (rest : list cred) : fold_left group_step rest None = None.
Proof. induction rest; [reflexivity | exact IHrest]. Qed.

(** The state of [byIp] after the users [seen]: each own key is the
    [ip_key] of some seen user and holds those users in order; no seen
    key is inherited. *)
Definition groups_inv (seen : list cred) (byIp : list (string * list cred)) : Prop :=
  (forall k, assoc_get k byIp =
     match List.filter (fun u => String.eqb (ip_key u) k) seen with
     | [] => None
     | arr => Some arr
     end) /\
  NoDup byIp.*1 /\
  (forall u, In u seen -> inherited_key (ip_key u) = false).

Lemma group_fold (rest seen : list cred) (byIp : list (string * list cred)) :
  groups_inv seen byIp ->
  match fold_left group_step rest (Some byIp) with
  | None => exists u, In u rest /\ inherited_key (ip_key u) = true
  | Some byIp' => groups_inv (seen ++ rest) byIp'
  end.
Proof.
  revert seen byIp. induction rest as [|u rest IH]; intros seen byIp [Hget [Hnd Hinh]].
  - cbn. rewrite app_nil_r. split; [exact Hget | split; assumption].
  - cbn [fold_left]. unfold group_step at 2.
    set (k := ip_key u).
    assert (Hfilt : forall k', List.filter (fun v => String.eqb (ip_key v) k') (seen ++ [u]) =
              List.filter (fun v => String.eqb (ip_key v) k') seen ++
              (if String.eqb k k' then [u] else [])).
    { intros k'. rewrite List.filter_app. cbn. fold k. destruct (String.eqb k k'); reflexivity. }
    assert (Hstep : forall byIp', groups_inv (seen ++ [u]) byIp' ->
              match fold_left group_step rest (Some byIp') with
              | None => exists v, In v (u :: rest) /\ inherited_key (ip_key v) = true
              | Some b => groups_inv (seen ++ u :: rest) b
              end).
    { intros byIp' Hinv. specialize (IH (seen ++ [u]) byIp' Hinv).
      destruct (fold_left group_step rest (Some byIp')).
      - rewrite <- app_assoc in IH. exact IH.
      - destruct IH as [v [Hv Hi]]. exists v. split; [right; exact Hv | exact Hi]. }
    destruct (assoc_get k byIp) as [arr|] eqn:Ek.
    + apply Hstep. pose proof (Hget k) as Hk. rewrite Ek in Hk.
      destruct (List.filter _ seen) as [|v0 vs] eqn:Ef; [discriminate|]. injection Hk as Harr. subst arr.
      split; [|split].
      * intros k'. rewrite Hfilt. destruct (String.eqb_spec k' k) as [->|Hne].
        -- rewrite (assoc_get_push_eq k u byIp _ Ek), Ef, String.eqb_refl. reflexivity.
        -- rewrite assoc_get_push_ne by exact Hne. rewrite Hget.
           destruct (String.eqb_spec k k'); [congruence|]. rewrite app_nil_r. reflexivity.
      * rewrite assoc_push_keys. exact Hnd.
      * intros v Hv. apply in_app_or in Hv as [Hv | [<- | []]]; [exact (Hinh v Hv)|].
        assert (Hin : In v0 (List.filter (fun v => String.eqb (ip_key v) k) seen))
          by (rewrite Ef; left; reflexivity).
        apply filter_In in Hin as [Hin Heq]. apply String.eqb_eq in Heq.
        fold k. rewrite <- Heq. exact (Hinh v0 Hin).
    + destruct (inherited_key k) eqn:Hik.
      * rewrite group_fold_none. exists u. split; [left; reflexivity | exact Hik].
      * apply Hstep. split; [|split].
        -- intros k'. rewrite assoc_get_app, Hfilt. cbn.
           destruct (String.eqb_spec k' k) as [->|Hne].
           ++ rewrite Ek, String.eqb_refl. pose proof (Hget k) as Hk. rewrite Ek in Hk.
              destruct (List.filter _ seen); [reflexivity | discriminate].
           ++ destruct (String.eqb_spec k k'); [congruence|]. rewrite app_nil_r, <- Hget.
              destruct (assoc_get k' byIp); reflexivity.
        -- rewrite fmap_app. apply NoDup_app. split; [exact Hnd|]. split.
           ++ intros x Hx Hx'. cbn in Hx'. apply list_elem_of_singleton in Hx'. subst x.
              exact (assoc_get_None_keys k byIp Ek Hx).
           ++ cbn. apply NoDup_singleton.
        -- intros v Hv. apply in_app_or in Hv as [Hv | [<- | []]]; [exact (Hinh v Hv) | exact Hik].
Qed.

Lemma filter_keys_NoDup {A} (p : string * A -> bool) (l : list (string * A)) :
  NoDup l.*1 -> NoDup (List.filter p l).*1.
Proof.
  induction l as [|[k a] l IH]; intros Hnd; cbn; [constructor|].
  rewrite fmap_cons, NoDup_cons in Hnd. destruct Hnd as [Hk Hnd].
  destruct (p (k, a)); [|exact (IH Hnd)].
  rewrite fmap_cons, NoDup_cons. split; [|exact (IH Hnd)].
  intros Hin. apply Hk. apply list_elem_of_fmap in Hin as [[k' a'] [Heq Hin]].
  cbn in Heq |- *. subst k'. apply list_elem_of_In, filter_In in Hin as [Hin _].
  apply (list_elem_of_fmap_2 fst l (k, a')). apply list_elem_of_In. exact Hin.
Qed.

Lemma useralts_spec (object_values : gmap string cred -> list cred) (file : gmap string cred) :
  match useralts object_values file with
  | None => exists u, u ∈ (object_values file) /\ inherited_key (ip_key u) = true
  | Some dups =>
      (forall u, u ∈ (object_values file) -> inherited_key (ip_key u) = false) /\
      NoDup dups.*1 /\
      (forall k arr, (k, arr) ∈ dups <->
         arr = List.filter (fun u => String.eqb (ip_key u) k) (object_values file) /\
         (2 <= length arr)%nat)
  end.
Proof.
  unfold useralts.
  assert (H0 : groups_inv [] []).
  { split; [intros k; reflexivity | split; [constructor | intros u []]]. }
  pose proof (group_fold (object_values file) [] [] H0) as Hf.
  destruct (fold_left group_step _ (Some [])) as [byIp|].
  - destruct Hf as [Hget [Hnd Hinh]]. cbn [app] in *. split; [|split].
    + intros u Hu. apply Hinh. apply list_elem_of_In. exact Hu.
    + apply filter_keys_NoDup. exact Hnd.
    + intros k arr. rewrite list_elem_of_In, filter_In, <- list_elem_of_In.
      rewrite (assoc_get_elem k arr byIp Hnd), Hget. cbn [snd].
      split.
      * intros [Harr Hlen]. apply Nat.ltb_lt in Hlen.
        destruct (List.filter _ _) as [|v vs]; [discriminate|]. injection Harr as <-.
        split; [reflexivity | exact Hlen].
      * intros [-> Hlen]. split; [|apply Nat.ltb_lt; exact Hlen].
        destruct (List.filter _ _) as [|v vs]; [cbn in Hlen; lia | reflexivity].
  - destruct Hf as [u [Hu Hi]]. exists u. split; [apply list_elem_of_In; exact Hu | exact Hi].
Qed.

(** [/useralts] fails ("An error occurred.") exactly when some record's
    [ip || 'Unknown'] is a property name inherited from
    [Object.prototype], such as [constructor] or [toString]. Otherwise
    it reports, once each, the IPs shared by at least two records, each
    with all the records that have it, in the order [Object.values]
    lists them; an empty [ip] counts as ["Unknown"]. *)
Theorem useralts_groups (object_values : gmap string cred -> list cred) (file : gmap string cred) :
  match useralts object_values file with
  | None => exists u, u ∈ (object_values file) /\ inherited_key (ip_key u) = true
  | Some dups =>
      (forall u, u ∈ (object_values file) -> inherited_key (ip_key u) = false) /\
      NoDup dups.*1 /\
      (forall k arr, (k, arr) ∈ dups <->
         arr = List.filter (fun u => String.eqb (ip_key u) k) (object_values file) /\
         (2 <= length arr)%nat)
  end.
Proof. exact (useralts_spec object_values file). Qed.

(* ------------------------------------------------------------------ *)
(** ** The callback's record, and what the other commands do with it *)

Lemma append_nonempty_l (s t : string) : s <> EmptyString -> s +:+ t <> EmptyString.
Proof. destruct s; [contradiction | intros _; rewrite append_cons; discriminate]. Qed.

Lemma full_username_nonempty (u : discord_user) : full_username u <> EmptyString.
Proof.
  unfold full_username. apply append_nonempty_l.
  destruct (js_trim _); discriminate.
Qed.

(** What a successful callback stores. *)
Lemma callback_success_inv (code : option string) (client_ip now_iso : string)
    (exchange : string -> token_resp) (me : token_data -> me_resp)
    (file file' : gmap string cred) :
  callback code client_ip now_iso exchange me file = (200, file') ->
  exists c tokenData userData,
    code = Some c /\ truthy (Some c) = true /\
    exchange c = TJson (Some tokenData) /\ truthy (td_access_token tokenData) = true /\
    me tokenData = MeJson userData /\
    file' = <[du_id userData := {| id := du_id userData;
                                  username := full_username userData;
                                  verifiedAt := now_iso;
                                  ip := client_ip;
                                  avatar := or_else (du_avatar userData) None;
                                  access_token := td_access_token tokenData;
                                  refresh_token := or_else (td_refresh_token tokenData) None |}]> file.
Proof.
  unfold callback. destruct code as [[|ch s]|]; try discriminate.
  destruct (exchange (String ch s)) as [|[td|]] eqn:Ex; try discriminate.
  destruct (truthy (td_access_token td)) eqn:Ea; cbn [negb]; [|discriminate].
  destruct (me td) as [|u] eqn:Em; [discriminate|].
  intros [= <-]. exists (String ch s), td, u. repeat split; assumption.
Qed.

(** A callback answered 200 made the two Discord calls: the code
    exchange, answered with a token response, and [/users/@me], answered
    with the user [userData]. It inserts one record under [userData.id],
    leaving the other records as they were. The record has that id, the
    user's display name (never empty), the access token of the response
    (a non-empty one), the client address as [ip], the time of the call,
    and the response's refresh token when it is non-empty, else [null]. *)
Theorem callback_stored_record (code : option string) (client_ip now_iso : string)
    (exchange : string -> token_resp) (me : token_data -> me_resp)
    (file file' : gmap string cred) :
  callback code client_ip now_iso exchange me file = (200, file') ->
  exists c tokenData userData r,
    code = Some c /\ exchange c = TJson (Some tokenData) /\ me tokenData = MeJson userData /\
    file' = <[du_id userData := r]> file /\ id r = du_id userData /\
    username r = full_username userData /\ username r <> EmptyString /\
    access_token r = td_access_token tokenData /\ truthy (access_token r) = true /\
    ip r = client_ip /\ verifiedAt r = now_iso /\
    refresh_token r = or_else (td_refresh_token tokenData) None /\
    (refresh_token r = None \/ truthy (refresh_token r) = true).
Proof.
  intros Hc. apply callback_success_inv in Hc as (c & td & u & Hcode & _ & Hex & Ha & Hme & ->).
  exists c, td, u.
  lazymatch goal with |- exists r, _ /\ _ /\ _ /\ <[_ := ?R]> _ = _ /\ _ => exists R end.
  cbn [id access_token username ip verifiedAt refresh_token].
  do 6 (split; [assumption || reflexivity|]).
  split; [apply full_username_nonempty|]. split; [reflexivity|].
  split; [exact Ha|]. do 3 (split; [reflexivity|]). unfold or_else.
  destruct (truthy (td_refresh_token td)) eqn:Er; [right; exact Er | left; reflexivity].
Qed.

Lemma callback_stored_record_witness :
  let exchange := fun _ : string => TJson (Some {| td_access_token := Some "a";
                                                   td_refresh_token := Some "r";
                                                   td_token_type := Some "Bearer" |}) in
  let me := fun _ : token_data => MeJson {| du_id := "7"; du_username := Some "bob";
                                            du_global_name := None; du_discriminator := Some "0";
                                            du_avatar := None; du_user_username := None |} in
  let file' := snd (callback (Some "code") "1.2.3.4" "2025-01-01T00:00:00.000Z" exchange me ∅) in
  callback (Some "code") "1.2.3.4" "2025-01-01T00:00:00.000Z" exchange me ∅ = (200, file') /\
  exists c tokenData userData r,
    Some "code" = Some c /\ exchange c = TJson (Some tokenData) /\ me tokenData = MeJson userData /\
    file' = <[du_id userData := r]> ∅ /\ id r = du_id userData /\
    username r = full_username userData /\ username r <> EmptyString /\
    access_token r = td_access_token tokenData /\ truthy (access_token r) = true /\
    ip r = "1.2.3.4" /\ verifiedAt r = "2025-01-01T00:00:00.000Z" /\
    refresh_token r = or_else (td_refresh_token tokenData) None /\
    (refresh_token r = None \/ truthy (refresh_token r) = true).
Proof.
  intros exchange me file'. split; [reflexivity|].
  apply (callback_stored_record (Some "code") "1.2.3.4" "2025-01-01T00:00:00.000Z" exchange me ∅).
  reflexivity.
Defined.

(** A user verified through a token response without a refresh token is
    stored, and evicted by the next refresh pass, whatever the token
    endpoint answers then. *)
Theorem verified_without_refresh_token_evicted (c client_ip now_iso : string)
    (exchange : string -> token_resp) (me : token_data -> me_resp) (tokenData : token_data)
    (oauth_refresh : string -> string -> token_resp) (file file' saved : gmap string cred) :
  exchange c = TJson (Some tokenData) ->
  truthy (td_refresh_token tokenData) = false ->
  callback (Some c) client_ip now_iso exchange me file = (200, file') ->
  saved ∈ saves (refreshAllTokens oauth_refresh file') ->
  exists u, me tokenData = MeJson u /\ is_Some (file' !! du_id u) /\ saved !! du_id u = None.
Proof.
  intros Hex Hrt Hc Hs.
  apply callback_success_inv in Hc as (c' & td & u & [= <-] & _ & Hex' & _ & Hme & Hf).
  rewrite Hex in Hex'. injection Hex' as <-.
  exists u. split; [exact Hme|]. split; [rewrite Hf, lookup_insert_eq; eexists; reflexivity|].
  destruct (refresh_pass oauth_refresh file') as [Hemp Hne].
  destruct (decide (file' = ∅)) as [E|E].
  { exfalso. rewrite Hf in E. exact (insert_non_empty _ _ _ E). }
  destruct (Hne E) as (users' & r & d & Hsv & _ & _ & Hk). rewrite Hsv in Hs.
  apply list_elem_of_singleton in Hs. subst saved.
  rewrite Hk, Hf, lookup_insert_eq. simpl. unfold refreshed_record. cbn [refresh_token].
  unfold or_else. rewrite Hrt. reflexivity.
Qed.

Lemma verified_without_refresh_token_evicted_witness :
  let td := {| td_access_token := Some "a"; td_refresh_token := None;
               td_token_type := Some "Bearer" |} in
  let exchange := fun _ : string => TJson (Some td) in
  let me := fun _ : token_data => MeJson {| du_id := "7"; du_username := Some "bob";
                                            du_global_name := None; du_discriminator := None;
                                            du_avatar := None; du_user_username := None |} in
  let file' := snd (callback (Some "code") "1.2.3.4" "t" exchange me ∅) in
  exists saved,
    exchange "code" = TJson (Some td) /\ truthy (td_refresh_token td) = false /\
    callback (Some "code") "1.2.3.4" "t" exchange me ∅ = (200, file') /\
    saved ∈ saves (refreshAllTokens (fun _ _ => TThrew) file') /\
    exists u, me td = MeJson u /\ is_Some (file' !! du_id u) /\ saved !! du_id u = None.
Proof.
  intros td exchange me file'.
  destruct (saves (refreshAllTokens (fun _ _ => TThrew) file')) as [|saved rest] eqn:Es;
    [vm_compute in Es; discriminate|].
  exists saved.
  assert (Hm : saved ∈ saves (refreshAllTokens (fun _ _ => TThrew) file')) by (rewrite Es; left).
  split; [reflexivity|]. split; [reflexivity|]. split; [reflexivity|]. split; [left|].
  exact (verified_without_refresh_token_evicted "code" "1.2.3.4" "t" exchange me td
           (fun _ _ => TThrew) ∅ file' saved eq_refl eq_refl eq_refl Hm).
Defined.

Lemma inherited_key_nonempty (k : string) : inherited_key k = true -> k <> EmptyString.
Proof. intros H ->. discriminate. Qed.

(** A successful verification whose client address (the
    [X-Forwarded-For] header, which the client sets) is an
    [Object.prototype] property name such as [constructor] makes
    [/useralts] fail on the resulting store. *)
Theorem callback_breaks_useralts (object_values : gmap string cred -> list cred)
    (code : option string) (client_ip now_iso : string)
    (exchange : string -> token_resp) (me : token_data -> me_resp)
    (file file' : gmap string cred) :
  inherited_key client_ip = true ->
  callback code client_ip now_iso exchange me file = (200, file') ->
  object_values file' ≡ₚ (map_to_list file').*2 ->
  useralts object_values file' = None.
Proof.
  intros Hi Hc Hperm. apply callback_success_inv in Hc as (c & td & u & _ & _ & _ & _ & _ & Hf).
  pose proof (useralts_spec object_values file') as Hs.
  destruct (useralts object_values file') as [dups|]; [|reflexivity].
  destruct Hs as [Hall _]. exfalso.
  set (r := {| id := du_id u; username := full_username u; verifiedAt := now_iso;
               ip := client_ip; avatar := or_else (du_avatar u) None;
               access_token := td_access_token td;
               refresh_token := or_else (td_refresh_token td) None |}) in Hf.
  assert (Hr : r ∈ object_values file').
  { rewrite Hperm. apply (list_elem_of_fmap_2 snd _ (du_id u, r)). apply elem_of_map_to_list.
    rewrite Hf. apply lookup_insert_eq. }
  specialize (Hall r Hr). unfold ip_key in Hall. cbn [ip r] in Hall.
  destruct client_ip as [|ch s]; [discriminate | congruence].
Qed.

Lemma callback_breaks_useralts_witness :
  let exchange := fun _ : string => TJson (Some {| td_access_token := Some "a";
                                                   td_refresh_token := Some "r";
                                                   td_token_type := Some "Bearer" |}) in
  let me := fun _ : token_data => MeJson {| du_id := "7"; du_username := Some "bob";
                                            du_global_name := None; du_discriminator := None;
                                            du_avatar := None; du_user_username := None |} in
  inherited_key "constructor" = true /\
  callback (Some "code") "constructor" "t" exchange me ∅
    = (200, snd (callback (Some "code") "constructor" "t" exchange me ∅)) /\
  let file' := snd (callback (Some "code") "constructor" "t" exchange me ∅) in
  gmap_values file' ≡ₚ (map_to_list file').*2 /\
  useralts gmap_values file' = None.
Proof.
  intros exchange me. split; [reflexivity|]. split; [reflexivity|]. intros file'.
  split; [reflexivity|].
  apply (callback_breaks_useralts gmap_values (Some "code") "constructor" "t" exchange me ∅);
    reflexivity.
Defined.

(** [/removeuser]: it refuses, without a save, exactly the ids (after
    trimming) that are neither in the store nor an [Object.prototype]
    property name. Such a property name is reported removed while the
    store is saved unchanged; an id in the store is deleted, and the
    store loses exactly one record. *)
Theorem removeuser_effect (userid : string) (file : gmap string cred) :
  (removeuser userid file = None <->
     file !! js_trim userid = None /\ inherited_key (js_trim userid) = false) /\
  (forall file', removeuser userid file = Some file' ->
      file' = delete (js_trim userid) file /\
      (is_Some (file !! js_trim userid) -> S (size file') = size file) /\
      (file !! js_trim userid = None -> file' = file)).
Proof.
  unfold removeuser. destruct (file !! js_trim userid) as [c|] eqn:E.
  - split; [split; [discriminate | intros [[=] _]]|].
    intros file' [= <-]. split; [reflexivity|]. split.
    + intros _. exact (size_delete_present file _ c E).
    + discriminate.
  - destruct (inherited_key (js_trim userid)) eqn:Hi.
    + split; [split; [discriminate | intros [_ [=]]]|].
      intros file' [= <-]. split; [symmetry; apply delete_id; exact E|]. split.
      * intros [x Hx]. discriminate.
      * intros _. reflexivity.
    + split; [tauto | discriminate].
Qed.

(** Verifying a user not yet in the store, then removing that user's id
    ([userData.id] of [/users/@me]) with [/removeuser], gives back the
    store as it was. *)
Theorem verify_then_remove (code : option string) (client_ip now_iso : string)
    (exchange : string -> token_resp) (me : token_data -> me_resp)
    (file file' : gmap string cred) :
  callback code client_ip now_iso exchange me file = (200, file') ->
  exists c tokenData userData,
    code = Some c /\ exchange c = TJson (Some tokenData) /\ me tokenData = MeJson userData /\
    is_Some (file' !! du_id userData) /\
    (file !! du_id userData = None -> js_trim (du_id userData) = du_id userData ->
     removeuser (du_id userData) file' = Some file).
Proof.
  intros Hc. apply callback_success_inv in Hc as (c & td & u & Hcode & _ & Hex & _ & Hme & ->).
  exists c, td, u. split; [exact Hcode|]. split; [exact Hex|]. split; [exact Hme|].
  rewrite lookup_insert_eq. split; [eexists; reflexivity|].
  intros Hnone Htrim. unfold removeuser. rewrite Htrim, lookup_insert_eq.
  f_equal. rewrite delete_insert_eq. apply delete_id. exact Hnone.
Qed.

Lemma verify_then_remove_witness :
  let exchange := fun _ : string => TJson (Some {| td_access_token := Some "a";
                                                   td_refresh_token := Some "r";
                                                   td_token_type := Some "Bearer" |}) in
  let me := fun _ : token_data => MeJson {| du_id := "7"; du_username := Some "bob";
                                            du_global_name := None; du_discriminator := None;
                                            du_avatar := None; du_user_username := None |} in
  let file' := snd (callback (Some "code") "1.2.3.4" "t" exchange me ∅) in
  callback (Some "code") "1.2.3.4" "t" exchange me ∅ = (200, file') /\
  exists c tokenData userData,
    Some "code" = Some c /\ exchange c = TJson (Some tokenData) /\ me tokenData = MeJson userData /\
    is_Some (file' !! du_id userData) /\
    ((∅ : gmap string cred) !! du_id userData = None ->
     js_trim (du_id userData) = du_id userData ->
     removeuser (du_id userData) file' = Some ∅).
Proof.
  intros exchange me file'. split; [reflexivity|].
  apply (verify_then_remove (Some "code") "1.2.3.4" "t" exchange me ∅). reflexivity.
Defined.

(* ------------------------------------------------------------------ *)
(** ** [presenceUpdate] *)

(** Each call is made only when it changes the role: after it succeeds,
    the role is held exactly when the member's custom status contains
    ["/grin"] in any letter case, if the presence is in the configured
    guild and carries a member (else nothing changes), so the same
    presence seen again makes no call. *)
Theorem presence_settles (p : presence) (has_role : bool) :
  (length (presenceUpdate (Some p) has_role) <= 1)%nat /\
  presenceUpdate (Some p) (apply_role_calls has_role (presenceUpdate (Some p) has_role)) = [] /\
  apply_role_calls has_role (presenceUpdate (Some p) has_role) =
    if (match p_guild p with Some g => String.eqb g GUILD_ID | None => false end) && p_member p
    then includes "/grin" (to_lower (custom_state (p_activities p))) else has_role.
Proof.
  unfold presenceUpdate.
  destruct (p_guild p) as [g|]; [|cbn; repeat split; lia].
  destruct (String.eqb g GUILD_ID); cbn [negb andb]; [|cbn; repeat split; lia].
  destruct (p_member p); cbn [negb]; [|cbn; repeat split; lia].
  destruct (includes "/grin" (to_lower (custom_state (p_activities p)))) eqn:E;
    destruct has_role; cbn; rewrite ?E; repeat split; lia.
Qed.

Lemma plain_lower (c : ascii) : plain (lower_ascii c) = plain c.
Proof. destruct c as [[] [] [] [] [] [] [] []]; reflexivity. Qed.

Lemma to_lower_app (a b : string) : to_lower (a +:+ b) = to_lower a +:+ to_lower b.
Proof. induction a as [|c a IH]; [reflexivity|]. rewrite append_cons. cbn. rewrite IH. reflexivity. Qed.

Lemma prefix_self (n y : string) : String.prefix n (n +:+ y) = true.
Proof.
  induction n as [|c n IH]; [destruct y; reflexivity|].
  rewrite append_cons. cbn. destruct (ascii_dec c c); [exact IH | contradiction].
Qed.

Lemma includes_mid (n x y : string) : includes n (x +:+ n +:+ y) = true.
Proof.
  induction x as [|c x IH].
  - rewrite append_nil_l. destruct (n +:+ y) eqn:E; cbn [includes];
      rewrite <- E, prefix_self; reflexivity.
  - rewrite append_cons. cbn [includes]. rewrite IH. apply orb_true_r.
Qed.

Lemma grin_found (w s1 s2 : string) :
  to_lower w = "/grin" -> includes "/grin" (to_lower (js_trim (s1 +:+ w +:+ s2))) = true.
Proof.
  intros Hw.
  destruct w as [|c1 [|c2 [|c3 [|c4 [|c5 [|c6 w]]]]]]; cbn in Hw; try discriminate.
  injection Hw as H1 H2 H3 H4 H5.
  assert (P1 : plain c1 = true) by (rewrite <- plain_lower, H1; reflexivity).
  assert (P5 : plain c5 = true) by (rewrite <- plain_lower, H5; reflexivity).
  rewrite !append_cons, append_nil_l.
  unfold js_trim. destruct (trim_start_keep s1 c1 (String c2 (String c3 (String c4 (String c5 s2)))) P1)
    as [x' ->].
  rewrite trim_end_plain by exact P1.
  pose proof (trim_end_plain (String c2 (String c3 (String c4 EmptyString))) c5 s2 P5) as H.
  rewrite !append_cons, !append_nil_l in H. rewrite H.
  rewrite to_lower_app. cbn [to_lower]. rewrite H1, H2, H3, H4, H5.
  change (String "/" (String "g" (String "r" (String "i" (String "n" (to_lower (trim_end s2)))))))
    with ("/grin" +:+ to_lower (trim_end s2)).
  apply includes_mid.
Qed.

(** A custom status that contains ["/grin"] anywhere, in any letter case
    (such as ["I like /Grin!"]), grants the media role, not only the
    status ["/grin"] itself. *)
Theorem presence_grin_anywhere (p : presence) (a : activity) (w s1 s2 : string) (has_role : bool) :
  p_guild p = Some GUILD_ID ->
  p_member p = true ->
  List.find (fun a => a_type a =? 4) (p_activities p) = Some a ->
  a_state a = Some (s1 +:+ w +:+ s2) ->
  to_lower w = "/grin" ->
  presenceUpdate (Some p) has_role = (if has_role then [] else [AddMediaRole]) /\
  apply_role_calls has_role (presenceUpdate (Some p) has_role) = true.
Proof.
  intros Hg Hm Hf Hs Hw.
  assert (Hi : includes "/grin" (to_lower (custom_state (p_activities p))) = true).
  { unfold custom_state. rewrite Hf, Hs. apply grin_found. exact Hw. }
  unfold presenceUpdate. rewrite Hg, String.eqb_refl, Hm. cbn [negb]. rewrite Hi.
  destruct has_role; split; reflexivity.
Qed.

Lemma presence_grin_anywhere_witness :
  let a := {| a_type := 4; a_state := Some "  I like /Grin!" |} in
  let p := {| p_guild := Some GUILD_ID; p_member := true; p_activities := [a] |} in
  p_guild p = Some GUILD_ID /\ p_member p = true /\
  List.find (fun a => a_type a =? 4) (p_activities p) = Some a /\
  a_state a = Some ("  I like " +:+ "/Grin" +:+ "!") /\
  to_lower "/Grin" = "/grin" /\
  presenceUpdate (Some p) false = [AddMediaRole] /\
  apply_role_calls false (presenceUpdate (Some p) false) = true.
Proof.
  intros a p. do 5 (split; [reflexivity|]).
  apply (presence_grin_anywhere p a "/Grin" "  I like " "!" false); reflexivity.
Defined.

(* ------------------------------------------------------------------ *)
(** ** [POST /upload] *)

Lemma replace_first_absent (pat rep s : string) :
  includes pat s = false -> replace_first pat rep s = s.
Proof.
  induction s as [|c s IH]; cbn [includes replace_first]; intros H.
  - apply orb_false_iff in H as [H _]. rewrite H. reflexivity.
  - apply orb_false_iff in H as [H1 H2]. rewrite H1, IH by exact H2. reflexivity.
Qed.

Section UploadProofs.

Variable json : Type.
Variable JSON_parse : string -> option json.
Variable JSON_stringify : json -> string.
Variable fs_fails : fs_state -> fs_call -> bool.

Abbreviation upload := (upload_post json JSON_parse JSON_stringify fs_fails).

(** [POST /upload] answers 200 only when the [pass] field equals
    [ADMIN_PASS] and the uploaded file exists and parses as JSON to some
    [d]; then the uploaded file is gone and, unless it was [users.json]
    itself, [users.json] holds [d] serialized. A request with another
    password is not answered 200 (403, or 500 when deleting its upload
    throws) and changes no file but its uploaded one. A request without a
    [pass] field passes the test when [ADMIN_PASS] is unset. *)
Theorem upload_authorization (USERS_FILE : string) (ADMIN_PASS pass reqfile : option string)
    (fs : fs_state) :
  (forall fs', upload USERS_FILE ADMIN_PASS pass reqfile fs = (200, fs') ->
     js_strict_neq pass ADMIN_PASS = false /\
     exists p content d, reqfile = Some p /\ fs !! p = Some content /\
       JSON_parse content = Some d /\ fs' !! p = None /\
       (p <> USERS_FILE -> fs' !! USERS_FILE = Some (JSON_stringify d))) /\
  (js_strict_neq pass ADMIN_PASS = true ->
     ((upload USERS_FILE ADMIN_PASS pass reqfile fs).1 = 403 \/
      (upload USERS_FILE ADMIN_PASS pass reqfile fs).1 = 500) /\
     forall k, reqfile <> Some k -> (upload USERS_FILE ADMIN_PASS pass reqfile fs).2 !! k = fs !! k) /\
  (ADMIN_PASS = None -> js_strict_neq None ADMIN_PASS = false).
Proof.
  unfold upload_post, fs_read, fs_copy, fs_write, fs_unlink, fs_state in *.
  split; [|split; [|intros ->; reflexivity]].
  - intros fs' H. destruct (js_strict_neq pass ADMIN_PASS) eqn:En.
    { destruct reqfile as [p|]; [|discriminate].
      destruct (fs_fails fs (FsUnlink p)); [discriminate|].
      destruct (fs !! p); discriminate. }
    split; [reflexivity|].
    destruct reqfile as [p|]; [|discriminate].
    destruct (fs_fails fs (FsRead p)); [discriminate|].
    destruct (fs !! p) as [content|] eqn:Ep; [|discriminate].
    destruct (JSON_parse content) as [d|] eqn:Ed; [|discriminate].
    exists p, content, d. do 3 (split; [reflexivity || assumption|]).
    set (fs1o := match fs !! USERS_FILE with
                 | Some _ => _ | None => Some fs end) in H.
    destruct fs1o as [fs1|]; [|discriminate].
    destruct (fs_fails fs1 (FsWrite USERS_FILE)); [discriminate|].
    destruct (fs_fails (<[USERS_FILE:=JSON_stringify d]> fs1) (FsUnlink p)); [discriminate|].
    destruct (<[USERS_FILE:=JSON_stringify d]> fs1 !! p); [|discriminate].
    injection H as <-. split; [apply lookup_delete_eq|].
    intros HpU. rewrite lookup_delete_ne by congruence. apply lookup_insert_eq.
  - intros Hn. rewrite Hn. destruct reqfile as [p|].
    + destruct (fs_fails fs (FsUnlink p)); [split; [right; reflexivity | reflexivity]|].
      destruct (fs !! p); [|split; [right; reflexivity | reflexivity]].
      split; [left; reflexivity|]. intros k Hk. apply lookup_delete_ne. congruence.
    + split; [left; reflexivity | reflexivity].
Qed.

(** When no [fs] call throws, an accepted upload of a file that parses
    to [d] answers 200: [users.json] holds [d] serialized, the uploaded
    file is deleted, the previous [users.json] (if any) is copied to
    [USERS_FILE] with its first [".json"] replaced by ["_backup.json"],
    and no other path changes. When [USERS_FILE] does not contain
    [".json"], that backup path is [USERS_FILE] itself, so no copy of the
    previous contents remains. *)
Theorem upload_success (USERS_FILE : string) (ADMIN_PASS pass : option string) (p content : string)
    (d : json) (fs : fs_state) :
  (forall st c, fs_fails st c = false) ->
  js_strict_neq pass ADMIN_PASS = false ->
  fs !! p = Some content ->
  JSON_parse content = Some d ->
  p <> USERS_FILE -> p <> backup_path USERS_FILE ->
  exists fs',
    upload USERS_FILE ADMIN_PASS pass (Some p) fs = (200, fs') /\
    fs' !! USERS_FILE = Some (JSON_stringify d) /\
    fs' !! p = None /\
    (backup_path USERS_FILE <> USERS_FILE ->
       fs' !! backup_path USERS_FILE =
         match fs !! USERS_FILE with Some old => Some old | None => fs !! backup_path USERS_FILE end) /\
    (includes ".json" USERS_FILE = false -> backup_path USERS_FILE = USERS_FILE) /\
    (forall k, k <> USERS_FILE -> k <> backup_path USERS_FILE -> k <> p -> fs' !! k = fs !! k).
Proof.
  intros Hnf Hn Hp Hd HpF HpB.
  unfold upload_post, fs_read, fs_copy, fs_write, fs_unlink, fs_state in *.
  rewrite !Hnf, Hn, Hp, Hd.
  set (fs1 := match fs !! USERS_FILE with
              | Some old => <[backup_path USERS_FILE := old]> fs | None => fs end).
  assert (Hc : match fs !! USERS_FILE with
               | Some _ => match fs !! USERS_FILE with
                           | Some c => Some (<[backup_path USERS_FILE:=c]> fs) | None => None end
               | None => Some fs end = Some fs1).
  { unfold fs1. destruct (fs !! USERS_FILE); reflexivity. }
  rewrite Hc, !Hnf.
  assert (Hp1 : fs1 !! p = Some content).
  { unfold fs1. destruct (fs !! USERS_FILE); [|exact Hp].
    rewrite lookup_insert_ne by congruence. exact Hp. }
  rewrite lookup_insert_ne by congruence. rewrite Hp1.
  eexists. split; [reflexivity|].
  split; [|split; [|split; [|split]]].
  - rewrite lookup_delete_ne by congruence. apply lookup_insert_eq.
  - apply lookup_delete_eq.
  - intros HBF. rewrite lookup_delete_ne by congruence. rewrite lookup_insert_ne by congruence.
    unfold fs1. destruct (fs !! USERS_FILE); [apply lookup_insert_eq | reflexivity].
  - intros Hj. unfold backup_path. apply replace_first_absent. exact Hj.
  - intros k HkF HkB Hkp. rewrite lookup_delete_ne by congruence.
    rewrite lookup_insert_ne by congruence.
    unfold fs1. destruct (fs !! USERS_FILE); [|reflexivity]. apply lookup_insert_ne. congruence.
Qed.

(** The replacement is not undone when a later call throws: if deleting
    the uploaded file throws after [users.json] was written, the handler
    answers 500 although [users.json] already holds the uploaded data,
    and the uploaded file stays. *)
Theorem upload_500_after_replace (USERS_FILE : string) (ADMIN_PASS pass : option string)
    (p content : string) (d : json) (fs : fs_state) :
  (forall st q, fs_fails st (FsRead q) = false) ->
  (forall st a b, fs_fails st (FsCopy a b) = false) ->
  (forall st q, fs_fails st (FsWrite q) = false) ->
  (forall st, fs_fails st (FsUnlink p) = true) ->
  js_strict_neq pass ADMIN_PASS = false ->
  fs !! p = Some content ->
  JSON_parse content = Some d ->
  p <> USERS_FILE -> p <> backup_path USERS_FILE ->
  exists fs',
    upload USERS_FILE ADMIN_PASS pass (Some p) fs = (500, fs') /\
    fs' !! USERS_FILE = Some (JSON_stringify d) /\
    fs' !! p = Some content.
Proof.
  intros Hr Hcp Hw Hu Hn Hp Hd HpF HpB.
  unfold upload_post, fs_read, fs_copy, fs_write, fs_unlink, fs_state in *.
  rewrite Hr, Hn, Hp, Hd.
  set (fs1 := match fs !! USERS_FILE with
              | Some old => <[backup_path USERS_FILE := old]> fs | None => fs end).
  assert (Hc : match fs !! USERS_FILE with
               | Some _ => if fs_fails fs (FsCopy USERS_FILE (backup_path USERS_FILE)) then None
                           else match fs !! USERS_FILE with
                                | Some c => Some (<[backup_path USERS_FILE:=c]> fs) | None => None end
               | None => Some fs end = Some fs1).
  { unfold fs1. rewrite Hcp. destruct (fs !! USERS_FILE); reflexivity. }
  rewrite Hc, Hw, Hu.
  assert (Hp1 : fs1 !! p = Some content).
  { unfold fs1. destruct (fs !! USERS_FILE); [|exact Hp].
    rewrite lookup_insert_ne by congruence. exact Hp. }
  eexists. split; [reflexivity|]. split; [apply lookup_insert_eq|].
  rewrite lookup_insert_ne by congruence. exact Hp1.
Qed.

End UploadProofs.

Lemma upload_success_witness :
  let fs : fs_state := <["./data/users.json" := "{}"]> {[ "uploads/f1" := "[1]" ]} in
  (forall (st : fs_state) (c : fs_call), (fun _ _ => false) st c = false) /\
  js_strict_neq (Some "pw") (Some "pw") = false /\
  fs !! "uploads/f1" = Some "[1]" /\
  (fun s : string => Some s) "[1]" = Some "[1]" /\
  "uploads/f1" <> "./data/users.json" /\ "uploads/f1" <> backup_path "./data/users.json" /\
  exists fs',
    upload_post string (fun s => Some s) (fun s => s) (fun _ _ => false)
      "./data/users.json" (Some "pw") (Some "pw") (Some "uploads/f1") fs = (200, fs') /\
    fs' !! "./data/users.json" = Some "[1]" /\
    fs' !! "uploads/f1" = None /\
    (backup_path "./data/users.json" <> "./data/users.json" ->
       fs' !! backup_path "./data/users.json" =
         match fs !! "./data/users.json" with
         | Some old => Some old | None => fs !! backup_path "./data/users.json" end) /\
    (includes ".json" "./data/users.json" = false ->
       backup_path "./data/users.json" = "./data/users.json") /\
    (forall k, k <> "./data/users.json" -> k <> backup_path "./data/users.json" ->
       k <> "uploads/f1" -> fs' !! k = fs !! k).
Proof.
  intros fs. split; [reflexivity|]. split; [reflexivity|]. split; [reflexivity|].
  split; [reflexivity|]. split; [discriminate|]. split; [vm_compute; discriminate|].
  apply (upload_success string (fun s => Some s) (fun s => s) (fun _ _ => false)
           "./data/users.json" (Some "pw") (Some "pw") "uploads/f1" "[1]" "[1]" fs);
    [reflexivity | reflexivity | reflexivity | reflexivity | discriminate
    | vm_compute; discriminate].
Defined.

(** A file system where deleting a file throws (say, the upload
    directory is read-only) and the other calls succeed. *)
Definition unlink_fails (st : fs_state) (c : fs_call) : bool :=
  match c with FsUnlink _ => true | _ => false end.

Lemma upload_500_after_replace_witness :
  let fs : fs_state := <["./data/users.json" := "{}"]> {[ "uploads/f1" := "[1]" ]} in
  exists fs',
    upload_post string (fun s => Some s) (fun s => s) unlink_fails
      "./data/users.json" (Some "pw") (Some "pw") (Some "uploads/f1") fs = (500, fs') /\
    fs' !! "./data/users.json" = Some "[1]" /\
    fs' !! "uploads/f1" = Some "[1]".
Proof.
  intros fs.
  apply (upload_500_after_replace string (fun s => Some s) (fun s => s) unlink_fails
           "./data/users.json" (Some "pw") (Some "pw") "uploads/f1" "[1]" "[1]" fs);
    [reflexivity | reflexivity | reflexivity | reflexivity | reflexivity | reflexivity
    | reflexivity | discriminate | vm_compute; discriminate].
Defined.

(* ------------------------------------------------------------------ *)
(** ** The counts of a refresh pass against the saved store *)

Lemma refresh_fold_size (oauth_refresh : string -> string -> token_resp)
    (l : list (string * cred)) (users : gmap string cred) (r d : nat) :
  NoDup l.*1 ->
  (forall k c, (k, c) ∈ l -> users !! k = Some c) ->
  let '(users', r', d') := fold_left (refresh_entry oauth_refresh) l (users, r, d) in
  (size users' + d' = size users + d)%nat.
Proof.
  revert users r d. induction l as [|[k0 c0] l IH]; intros users r d Hnd Hin; cbn [fold_left].
  - reflexivity.
  - rewrite fmap_cons, NoDup_cons in Hnd. destruct Hnd as [Hk0 Hnd]. cbn [fst] in Hk0.
    assert (Hu0 : users !! k0 = Some c0) by (apply Hin; left).
    assert (Hne : forall k c, (k, c) ∈ l -> k <> k0).
    { intros k c Hkc Heq. subst k. apply Hk0. apply (list_elem_of_fmap_2 fst l (k0, c)). exact Hkc. }
    rewrite (refresh_entry_step oauth_refresh users r d k0 c0 Hu0).
    destruct (refreshed_record oauth_refresh k0 c0) as [c'|].
    + assert (Hin1 : forall k c, (k, c) ∈ l -> <[k0 := c']> users !! k = Some c).
      { intros k c Hkc. rewrite lookup_insert_ne by (intros Heq; exact (Hne k c Hkc (eq_sym Heq))).
        apply Hin. right. exact Hkc. }
      specialize (IH (<[k0 := c']> users) (S r) d Hnd Hin1).
      destruct (fold_left _ l _) as [[users' r'] d'].
      rewrite map_size_insert_Some in IH by (rewrite Hu0; eexists; reflexivity). exact IH.
    + assert (Hin1 : forall k c, (k, c) ∈ l -> delete k0 users !! k = Some c).
      { intros k c Hkc. rewrite lookup_delete_ne by (intros Heq; exact (Hne k c Hkc (eq_sym Heq))).
        apply Hin. right. exact Hkc. }
      specialize (IH (delete k0 users) r (S d) Hnd Hin1).
      destruct (fold_left _ l _) as [[users' r'] d'].
      pose proof (size_delete_present users k0 c0 Hu0). lia.
Qed.

(** The counts a refresh pass logs match the store it saves: [refreshed]
    is the number of records saved and [deleted] the number of records
    dropped; the saved store has no id the file did not have. A pass
    that saves nothing ran on the empty store. *)
Theorem refresh_report_sizes (oauth_refresh : string -> string -> token_resp)
    (file : gmap string cred) :
  match saves (refreshAllTokens oauth_refresh file),
        report (refreshAllTokens oauth_refresh file) with
  | [saved], Some (refreshed, deleted) =>
      refreshed = size saved /\ (deleted + size saved = size file)%nat /\
      (forall k, is_Some (saved !! k) -> is_Some (file !! k))
  | [], None => file = ∅
  | _, _ => False
  end.
Proof.
  unfold refreshAllTokens.
  assert (Hin : forall k c, (k, c) ∈ map_to_list file -> file !! k = Some c)
    by (intros k c Hkc; apply elem_of_map_to_list; exact Hkc).
  pose proof (refresh_fold oauth_refresh (map_to_list file) file 0 0
                (NoDup_fst_map_to_list file) Hin) as Hf.
  pose proof (refresh_fold_size oauth_refresh (map_to_list file) file 0 0
                (NoDup_fst_map_to_list file) Hin) as Hsz.
  pose proof (length_map_to_list file) as Hlen.
  destruct (map_to_list file) as [|e es] eqn:E.
  - apply map_to_list_empty_iff. exact E.
  - destruct (fold_left _ _ _) as [[users' r] d].
    destruct Hf as [Hcnt [_ Hout]]. cbn [saves report].
    split; [lia|]. split; [lia|].
    intros k Hk. destruct (file !! k) as [c|] eqn:Ek; [eexists; reflexivity|].
    rewrite Hout, Ek in Hk; [exact Hk|].
    intros Hkl. apply list_elem_of_fmap in Hkl as [[k' c] [Heq Hkc]]. cbn in Heq. subst k'.
    rewrite <- E in Hkc. apply elem_of_map_to_list in Hkc. congruence.
Qed.

(* ------------------------------------------------------------------ *)
(** ** [/userlist] and [loadJson] *)



(** A verification that runs while [users.json] exists but does not
    parse saves what a verification on an empty store saves: a store
    holding only the newly verified user, under [userData.id] of
    [/users/@me]; the previous contents of the file are discarded. *)
Theorem callback_on_unparsable_store (JSON_parse : string -> option (gmap string cred))
    (contents : string) (code : option string) (client_ip now_iso : string)
    (exchange : string -> token_resp) (me : token_data -> me_resp)
    (file' : gmap string cred) :
  contents <> EmptyString ->
  JSON_parse contents = None ->
  callback code client_ip now_iso exchange me (loadJson JSON_parse (Some contents)) = (200, file') ->
  callback code client_ip now_iso exchange me ∅ = (200, file') /\
  exists c tokenData userData r,
    code = Some c /\ exchange c = TJson (Some tokenData) /\ me tokenData = MeJson userData /\
    id r = du_id userData /\ file' = {[du_id userData := r]}.
Proof.
  intros Hne Hp Hc.
  assert (Hl : loadJson JSON_parse (Some contents) = ∅).
  { unfold loadJson. destruct contents as [|ch s]; [contradiction|]. rewrite Hp. reflexivity. }
  rewrite Hl in Hc. split; [exact Hc|].
  apply callback_success_inv in Hc as (c & td & u & Hcode & _ & Hex & _ & Hme & ->).
  exists c, td, u.
  lazymatch goal with |- exists r, _ /\ _ /\ _ /\ _ /\ <[_ := ?R]> _ = _ => exists R end.
  do 4 (split; [assumption || reflexivity|]). apply insert_empty.
Qed.

Lemma callback_on_unparsable_store_witness :
  let exchange := fun _ : string => TJson (Some {| td_access_token := Some "a";
                                                   td_refresh_token := Some "r";
                                                   td_token_type := Some "Bearer" |}) in
  let me := fun _ : token_data => MeJson {| du_id := "7"; du_username := Some "bob";
                                            du_global_name := None; du_discriminator := None;
                                            du_avatar := None; du_user_username := None |} in
  let file' := snd (callback (Some "code") "1.2.3.4" "t" exchange me
                      (loadJson (fun _ => None) (Some "{broken"))) in
  "{broken"%string <> EmptyString /\
  (fun _ : string => @None (gmap string cred)) "{broken" = None /\
  callback (Some "code") "1.2.3.4" "t" exchange me (loadJson (fun _ => None) (Some "{broken"))
    = (200, file') /\
  callback (Some "code") "1.2.3.4" "t" exchange me ∅ = (200, file') /\
  exists c tokenData userData r,
    Some "code" = Some c /\ exchange c = TJson (Some tokenData) /\ me tokenData = MeJson userData /\
    id r = du_id userData /\ file' = {[du_id userData := r]}.
Proof.
  intros exchange me file'. split; [discriminate|]. split; [reflexivity|]. split; [reflexivity|].
  apply (callback_on_unparsable_store (fun _ => None) "{broken" (Some "code") "1.2.3.4" "t"
           exchange me); [discriminate | reflexivity | reflexivity].
Defined.
